(** * proj3: simple cluster analysis (agglomerative clustering of 2-D points)

    A shallow embedding of [proj3.c] and the properties of its core:
    the cluster store, the distance metric, the nearest-pair search,
    the merge/compaction step and the clustering loop of [main].

    Modelling conventions.
    - C [int] values are integers of [Z].  The program only counts
      objects and clusters with them; the development states the range
      assumption explicitly where a result depends on it (the conversion
      of [object_count] to [float]).
    - C [float] is IEEE-754 binary32, modelled by the Standard Library's
      [spec_float] with precision 24 and [emax] 128; every operation is
      rounded to nearest-even as [FLT_EVAL_METHOD == 0] prescribes.
    - The buffer [c->obj] is the list of its allocated slots ([NULL] is the
      empty list); a load or store outside the allocated slots is
      undefined behaviour.
    - [realloc]/[malloc] succeed or fail as an allocator oracle decides.
    - A failed [assert] aborts the program. *)

From Stdlib Require Import ZArith Bool String.
From Stdlib Require Import Floats.SpecFloat.
From stdpp Require Import base tactics option numbers list sorting.

Local Open Scope Z_scope.

(** ** Binary32 arithmetic *)

Module F32.

Definition prec : Z := 24.
Definition emax : Z := 128.

Definition float := spec_float.

Definition add : float -> float -> float := SFadd prec emax.
Definition sub : float -> float -> float := SFsub prec emax.
Definition mul : float -> float -> float := SFmul prec emax.
Definition div : float -> float -> float := SFdiv prec emax.
Definition sqrtf : float -> float := SFsqrt prec emax.

(** Conversion [(float) n] of an [int]. *)
Definition of_int (n : Z) : float := binary_normalize prec emax n 0 false.

(** C comparisons; each is false as soon as one operand is a NaN. *)
Definition lt (a b : float) : bool := SFltb a b.
Definition gt (a b : float) : bool := SFltb b a.
Definition ge (a b : float) : bool := SFleb b a.
Definition le (a b : float) : bool := SFleb a b.

Definition zero : float := S754_zero false.

(** A datum of the machine: a canonical binary32 representation. *)
Definition valid (a : float) : bool := valid_binary prec emax a.

(** Neither a NaN nor an infinity. *)
Definition is_finite (a : float) : bool :=
  match a with
  | S754_zero _ | S754_finite _ _ _ => true
  | _ => false
  end.

(** The values a distance can take: [+0], a positive number, [+inf]. *)
Definition is_distance (a : float) : bool :=
  match a with
  | S754_zero false | S754_finite false _ _ | S754_infinity false => true
  | _ => false
  end.

Definition is_nan (a : float) : bool :=
  match a with
  | S754_nan => true
  | _ => false
  end.

End F32.

Abbreviation float := F32.float.

(** ** Outcomes of a run *)

Inductive result (A : Type) : Type :=
| Ok (a : A)      (* normal completion *)
| Abort           (* a failed assert *)
| Undefined       (* undefined behaviour: a load or store outside a buffer,
                     or the use of an indeterminate value *)
| OutOfFuel.        (* the loop budget of the model is exhausted *)

Arguments Ok {A} a.
Arguments Abort {A}.
Arguments Undefined {A}.
Arguments OutOfFuel {A}.

Global Instance result_ret : MRet result := fun A a => Ok a.

Global Instance result_bind : MBind result := fun A B k r =>
  match r with
  | Ok a => k a
  | Abort => Abort
  | Undefined => Undefined
  | OutOfFuel => OutOfFuel
  end.

Definition assert (b : bool) : result unit := if b then Ok tt else Abort.

(** [for (int i = lo; i < lo + n; i++) body] *)
Fixpoint for_loop {St : Type} (n : nat) (i : Z) (body : Z -> St -> result St)
  (s : St) : result St :=
  match n with
  | O => Ok s
  | S n' => s' ← body i s; for_loop n' (i + 1) body s'
  end.

(** [while (cond) body], with a budget of loop tests. *)
Fixpoint while_loop {St : Type} (fuel : nat) (cond : St -> bool)
  (body : St -> result St) (s : St) : result St :=
  match fuel with
  | O => OutOfFuel
  | S fuel' =>
      if cond s then s' ← body s; while_loop fuel' cond body s'
      else Ok s
  end.

(** [a[i]] as an rvalue. *)
Definition load {A} (a : list A) (i : Z) : result A :=
  if i <? 0 then Undefined
  else match a !! Z.to_nat i with
       | Some v => Ok v
       | None => Undefined
       end.

(** [a[i] = v]. *)
Definition store {A} (a : list A) (i : Z) (v : A) : result (list A) :=
  if (0 <=? i) && (i <? Z.of_nat (length a)) then Ok (<[Z.to_nat i := v]> a)
  else Undefined.

(** ** Data model *)

(** [struct obj_t] *)
Record obj_t : Type := mk_obj {
  o_id : Z;       (* int id *)
  o_x : float;    (* float x *)
  o_y : float     (* float y *)
}.

(** [struct cluster_t]; [cl_obj] lists the allocated slots of [obj]. *)
Record cluster_t : Type := mk_cluster {
  cl_size : Z;
  cl_capacity : Z;
  cl_obj : list obj_t
}.

(** The content of a slot that was allocated and never written. *)
Definition obj_indeterminate : obj_t := mk_obj 0 F32.zero F32.zero.

(** The allocator oracle: does a request of [n] bytes succeed? *)
Definition allocator := Z -> bool.

Definition sizeof_obj_t : Z := 12.

(** The block [realloc(p, n * sizeof(struct obj_t))] returns on success:
    the old slots up to the new length, then fresh ones. *)
Definition realloc_block (p : list obj_t) (n : Z) : list obj_t :=
  take (Z.to_nat n) p ++ replicate (Z.to_nat n - length p)%nat obj_indeterminate.

(** ** Cluster operations *)

Definition init_cluster (al : allocator) (c : cluster_t) (cap : Z)
  : result cluster_t :=
  _ ← assert (0 <=? cap);
  let c := mk_cluster 0 (cl_capacity c) (cl_obj c) in
  if 0 <? cap then
    if al (cap * sizeof_obj_t)
    then Ok (mk_cluster (cl_size c) cap (realloc_block [] cap))
    else Ok (mk_cluster (cl_size c) (cl_capacity c) [])
  else Ok (mk_cluster (cl_size c) 0 []).

Definition clear_cluster (c : cluster_t) : cluster_t :=
  mk_cluster 0 0 [].

Definition CLUSTER_CHUNK : Z := 10.

(** [resize_cluster] updates [*c] and returns [c] or [NULL]; the boolean is
    [false] for [NULL]. *)
Definition resize_cluster (al : allocator) (c : cluster_t) (new_cap : Z)
  : result (cluster_t * bool) :=
  _ ← assert (0 <=? cl_capacity c);
  _ ← assert (0 <=? new_cap);
  if cl_capacity c >=? new_cap then Ok (c, true)
  else
    let size := sizeof_obj_t * new_cap in
    if al size
    then Ok (mk_cluster (cl_size c) new_cap (realloc_block (cl_obj c) new_cap),
             true)
    else Ok (c, false).

(** [while (size >= cap) cap += CLUSTER_CHUNK;] *)
Fixpoint grow_cap (fuel : nat) (size cap : Z) : Z :=
  match fuel with
  | O => cap
  | S fuel' =>
      if size >=? cap then grow_cap fuel' size (cap + CLUSTER_CHUNK) else cap
  end.

Definition append_cluster (al : allocator) (c : cluster_t) (obj : obj_t)
  : result cluster_t :=
  let cap := cl_capacity c in
  let size := cl_size c in
  let cap := grow_cap (Z.to_nat (size - cap + 1)) size cap in
  '(c, _) ← resize_cluster al c cap;
  buf ← store (cl_obj c) (cl_size c) obj;
  Ok (mk_cluster (cl_size c + 1) (cl_capacity c) buf).

Definition obj_sort_compar (a b : obj_t) : Z :=
  if o_id a <? o_id b then -1
  else if o_id a >? o_id b then 1
  else 0.

(** libc's [qsort] is specified by its contract only: the array is
    rearranged into ascending order of the comparison function.  It is
    modelled by a merge sort over the order the comparator induces. *)
Definition compar_le (compar : obj_t -> obj_t -> Z) : relation obj_t :=
  fun a b => compar a b <= 0.

Global Instance compar_le_dec compar : RelDecision (compar_le compar) :=
  fun a b => decide (compar a b <= 0).

Definition qsort (compar : obj_t -> obj_t -> Z) (base : list obj_t)
  : list obj_t :=
  merge_sort (compar_le compar) base.

Definition sort_cluster (c : cluster_t) : result cluster_t :=
  if (0 <=? cl_size c) && (cl_size c <=? Z.of_nat (length (cl_obj c)))
  then
    let n := Z.to_nat (cl_size c) in
    Ok (mk_cluster (cl_size c) (cl_capacity c)
          (qsort obj_sort_compar (take n (cl_obj c)) ++ drop n (cl_obj c)))
  else Undefined.

(** [c1] and [c2] are distinct objects: [c2] is only read. *)
Definition merge_clusters (al : allocator) (c1 c2 : cluster_t)
  : result cluster_t :=
  c1 ← for_loop (Z.to_nat (cl_size c2)) 0
         (fun i c1 => o ← load (cl_obj c2) i; append_cluster al c1 o) c1;
  sort_cluster c1.

(** ** Array operations *)

Definition remove_cluster (al : allocator) (carr : list cluster_t)
  (narr idx : Z) : result (list cluster_t * Z) :=
  _ ← assert (idx <? narr);
  _ ← assert (0 <? narr);
  '(carr, idx) ←
    while_loop (S (Z.to_nat (narr - idx)))
      (fun '(carr, idx) => idx <? narr)
      (fun '(carr, idx) =>
         c ← load carr idx;
         carr ← store carr idx (clear_cluster c);
         carr ← (if negb (idx =? narr - 1) then
                   c1 ← load carr idx;
                   c2 ← load carr (idx + 1);
                   c1 ← merge_clusters al c1 c2;
                   store carr idx c1
                 else Ok carr);
         Ok (carr, idx + 1))
      (carr, idx);
  Ok (carr, narr - 1).

Definition obj_distance (o1 o2 : obj_t) : float :=
  let a := F32.sub (o_x o1) (o_x o2) in
  let b := F32.sub (o_y o1) (o_y o2) in
  let a := F32.mul a a in
  let b := F32.mul b b in
  let dist := F32.sqrtf (F32.add a b) in
  dist.

(** One scan of all pairs [(i, j)] of both clusters, as the three branches
    of [cluster_distance] write it. *)
Definition scan_objects {St : Type} (c1 c2 : cluster_t)
  (body : obj_t -> obj_t -> St -> St) (s : St) : result St :=
  for_loop (Z.to_nat (cl_size c1)) 0
    (fun i s =>
       for_loop (Z.to_nat (cl_size c2)) 0
         (fun j s =>
            o1 ← load (cl_obj c1) i;
            o2 ← load (cl_obj c2) j;
            Ok (body o1 o2 s)) s) s.

(** [premium_case] is the global method selector; [result] stays
    indeterminate when it is none of 0, 1, 2. *)
Definition cluster_distance (premium_case : Z) (c1 c2 : cluster_t)
  : result float :=
  _ ← assert (0 <? cl_size c1);
  _ ← assert (0 <? cl_size c2);
  let result : option float := None in
  result ←
    (if premium_case =? 0 then
       '(object_distance, object_count) ←
         scan_objects c1 c2
           (fun o1 o2 '(object_distance, object_count) =>
              (F32.add object_distance (obj_distance o1 o2),
               object_count + 1))
           (F32.of_int 0, 0);
       Ok (Some (F32.div object_distance (F32.of_int object_count)))
     else Ok result);
  result ←
    (if premium_case =? 1 then
       o1 ← load (cl_obj c1) 0;
       o2 ← load (cl_obj c2) 0;
       distance ←
         scan_objects c1 c2
           (fun o1 o2 distance =>
              let new_distance := obj_distance o1 o2 in
              if F32.gt distance new_distance then new_distance
              else distance)
           (obj_distance o1 o2);
       Ok (Some distance)
     else Ok result);
  result ←
    (if premium_case =? 2 then
       o1 ← load (cl_obj c1) 0;
       o2 ← load (cl_obj c2) 0;
       distance ←
         scan_objects c1 c2
           (fun o1 o2 distance =>
              let new_distance := obj_distance o1 o2 in
              if F32.lt distance new_distance then new_distance
              else distance)
           (obj_distance o1 o2);
       Ok (Some distance)
     else Ok result);
  match result with
  | Some r => Ok r
  | None => Undefined
  end.

(** [*c1] and [*c2] are [None] while they hold no value yet. *)
Definition find_neighbours (premium_case : Z) (carr : list cluster_t)
  (narr : Z) (c1 c2 : option Z) : result (option Z * option Z) :=
  _ ← assert (0 <? narr);
  a ← load carr 0;
  b ← load carr 1;
  distance ← cluster_distance premium_case a b;
  '(_, c1, c2) ←
    for_loop (Z.to_nat narr) 0
      (fun i st =>
         for_loop (Z.to_nat (narr - (i + 1))) (i + 1)
           (fun j '(distance, c1, c2) =>
              a ← load carr i;
              b ← load carr j;
              new_dist ← cluster_distance premium_case a b;
              if F32.ge distance new_dist
              then Ok (new_dist, Some i, Some j)
              else Ok (distance, c1, c2))
           st)
      (distance, c1, c2);
  Ok (c1, c2).

(** Reading an [int] variable. *)
Definition read_int (v : option Z) : result Z :=
  match v with
  | Some n => Ok n
  | None => Undefined
  end.

(** ** The clustering loop of [main] *)

Definition loop_state : Type := list cluster_t * Z * option Z * option Z.

(** The body of [while (size > narr)].  [merge_clusters] on one and the
    same cluster never leaves its loop within the buffer, which is
    undefined behaviour. *)
Definition loop_body (premium_case : Z) (al : allocator) (st : loop_state)
  : result loop_state :=
  let '(clusters, size, c1, c2) := st in
  '(c1, c2) ← find_neighbours premium_case clusters size c1 c2;
  i ← read_int c1;
  j ← read_int c2;
  a ← load clusters i;
  b ← load clusters j;
  a ← (if i =? j then Undefined else merge_clusters al a b);
  clusters ← store clusters i a;
  '(clusters, _) ← remove_cluster al clusters size j;
  Ok (clusters, size - 1, c1, c2).

Definition cluster_loop (premium_case : Z) (al : allocator)
  (clusters : list cluster_t) (size narr : Z) : result loop_state :=
  while_loop (S (Z.to_nat (size - narr)))
    (fun '(_, size, _, _) => size >? narr)
    (loop_body premium_case al)
    (clusters, size, None, None).

(** ** Output and [main] *)

(** The objects [print_cluster] writes, in order. *)
Definition print_cluster (c : cluster_t) : result (list obj_t) :=
  for_loop (Z.to_nat (cl_size c)) 0
    (fun i out => o ← load (cl_obj c) i; Ok (out ++ [o])) [].

(** The lines [print_clusters] writes, one per cluster. *)
Definition print_clusters (carr : list cluster_t) (narr : Z)
  : result (list (list obj_t)) :=
  for_loop (Z.to_nat narr) 0
    (fun i out => c ← load carr i; line ← print_cluster c; Ok (out ++ [line]))
    [].

(** What [main] takes from outside the program: the allocator, libc's
    [strtol (s, &fail, 10)] as the value and the unparsed rest, and the
    outcome of [load_clusters] on a file name (the number of clusters, 0
    for a failed load, and the array it built). *)
Record environment : Type := mk_env {
  env_alloc : allocator;
  env_strtol : string -> Z * string;
  env_load_clusters : string -> Z * list cluster_t
}.

(** Conversion of [long] to [int]. *)
Definition to_int (v : Z) : Z := (v + 2 ^ 31) mod 2 ^ 32 - 2 ^ 31.

(** [main] returns its exit code and the clusters it printed. *)
Definition main (env : environment) (argv : list string)
  : result (Z * list (list obj_t)) :=
  let argc := Z.of_nat (length argv) in
  let premium_case := 0 in
  let narr := 1 in
  if argc <? 2 then Ok (-1, [])
  else
    premium_case ←
      (if argc >? 3 then
         argv3 ← load argv 3;
         let premium_case := 0 in
         let premium_case :=
           if String.eqb argv3 "--min" then 1 else premium_case in
         let premium_case :=
           if String.eqb argv3 "--max" then 2 else premium_case in
         Ok premium_case
       else Ok premium_case);
    narr ←
      (if argc >? 2 then
         argv2 ← load argv 2;
         let '(v, fail) := env_strtol env argv2 in
         let narr := to_int v in
         if negb (Nat.eqb (String.length fail) 0) then Ok (inr (-1))
         else if narr <=? 0 then Ok (inr (-1))
         else Ok (inl narr)
       else Ok (inl narr));
    match narr with
    | inr code => Ok (code, [])
    | inl narr =>
        argv1 ← load argv 1;
        let '(size, clusters) := env_load_clusters env argv1 in
        if size =? 0 then Ok (-1, [])
        else if (narr >? size) && negb (size =? 0) then Ok (-1, [])
        else
          '(clusters, size, _, _) ←
            cluster_loop premium_case (env_alloc env) clusters size narr;
          out ← print_clusters clusters size;
          _ ← for_loop (Z.to_nat size) 0
                (fun i clusters =>
                   c ← load clusters i; store clusters i (clear_cluster c))
                clusters;
          Ok (0, out)
    end.

(** The cluster [load_clusters] builds for one data line: [init_cluster]
    with capacity 1 on the fresh array slot, then [append_cluster]. *)
Definition load_line (al : allocator) (slot : cluster_t) (object : obj_t)
  : result cluster_t :=
  c ← init_cluster al slot 1;
  append_cluster al c object.

(** ** Specification vocabulary *)

(** The linkage methods as [main] numbers them in [premium_case]. *)
Definition AVERAGE : Z := 0.
Definition MIN : Z := 1.
Definition MAX : Z := 2.

Definition is_method (m : Z) : Prop := m = AVERAGE \/ m = MIN \/ m = MAX.

Definition INT_MAX : Z := 2147483647.

(** The objects of a cluster: the first [size] slots of its buffer. *)
Definition objects (c : cluster_t) : list obj_t :=
  take (Z.to_nat (cl_size c)) (cl_obj c).

(** The representation invariant of [struct cluster_t]. *)
Definition cluster_wf (c : cluster_t) : Prop :=
  0 <= cl_size c <= cl_capacity c /\
  cl_capacity c = Z.of_nat (length (cl_obj c)).

(** An allocator that satisfies every request. *)
Definition total_allocator (al : allocator) : Prop := forall n, al n = true.

(** The point invariant of the data model: [0 <= x <= 1000] and
    [0 <= y <= 1000]. *)
Definition coord_ok (a : float) : bool :=
  F32.valid a && F32.le F32.zero a && F32.le a (F32.of_int 1000).

Definition obj_valid (o : obj_t) : Prop :=
  coord_ok (o_x o) = true /\ coord_ok (o_y o) = true.

(** A cluster the distance metric accepts. *)
Definition cluster_ok (c : cluster_t) : Prop :=
  cluster_wf c /\ 0 < cl_size c /\ Forall obj_valid (objects c).

(** The logical collection: the objects of the first [n] clusters. *)
Definition collection (carr : list cluster_t) (n : Z) : list (list obj_t) :=
  objects <$> take (Z.to_nat n) carr.

(** All the points of the logical collection. *)
Definition points (carr : list cluster_t) (n : Z) : list obj_t :=
  concat (collection carr n).

(** The sum of the [size] fields of the first [n] clusters. *)
Definition total_size (carr : list cluster_t) (n : Z) : Z :=
  foldr Z.add 0 (cl_size <$> take (Z.to_nat n) carr).

(** A collection the clustering loop accepts. *)
Definition collection_ok (carr : list cluster_t) (n : Z) : Prop :=
  0 <= n <= Z.of_nat (length carr) /\
  Forall cluster_ok (take (Z.to_nat n) carr) /\
  total_size carr n * total_size carr n <= INT_MAX.

(** Strictly ascending identifiers. *)
Definition ascending (l : list obj_t) : Prop :=
  StronglySorted (fun a b => o_id a < o_id b) l.

(** Scan order of the pairs of [find_neighbours]: [i] ascending, then [j]. *)
Definition scanned_before (p q i j : Z) : Prop :=
  p < i \/ (p = i /\ q < j).

(** [k] runs of a loop body. *)
Fixpoint iterate {St : Type} (k : nat) (body : St -> result St) (s : St)
  : result St :=
  match k with
  | O => Ok s
  | S k' => s' ← body s; iterate k' body s'
  end.

(** The number of clusters of a logical collection that hold an object
    with identifier [id]. *)
Definition clusters_with_id (id : Z) (cs : list (list obj_t)) : nat :=
  length (filter (fun l => id ∈ o_id <$> l) cs).

(** What [remove_cluster] leaves in the array: the clusters before [idx]
    and from [narr] on are untouched, each cluster after [idx] is rebuilt
    one slot earlier as the sorted copy of its objects, the slot
    [narr - 1] is empty. *)
Definition removed (carr carr' : list cluster_t) (narr idx : Z) : Prop :=
  length carr' = length carr /\
  (forall k : nat, Z.of_nat k < idx \/ narr <= Z.of_nat k ->
     carr' !! k = carr !! k) /\
  (forall (k : nat) (c : cluster_t),
     idx <= Z.of_nat k < narr - 1 -> carr !! S k = Some c ->
     exists c', carr' !! k = Some c' /\ cluster_wf c' /\
                objects c' = qsort obj_sort_compar (objects c) /\
                cl_size c' = cl_size c) /\
  carr' !! Z.to_nat (narr - 1) = Some (mk_cluster 0 0 []).

(** ** Vocabulary of the binary32 arithmetic *)

(** A result that is a zero, a finite number or an infinity of sign [s]. *)
Definition has_sign (s : bool) (a : float) : Prop :=
  match a with
  | S754_zero s' | S754_infinity s' | S754_finite s' _ _ => s' = s
  | S754_nan => False
  end.

(** [rank] embeds the distance values into triples ordered
    lexicographically; [SFcompare] is the comparison of ranks. *)
Definition rank (a : float) : Z * Z * Z :=
  match a with
  | S754_zero _ => (0, 0, 0)
  | S754_finite _ m e => (1, e, Z.pos m)
  | S754_infinity _ => (2, 0, 0)
  | S754_nan => (3, 0, 0)
  end.

Definition rank_le (r1 r2 : Z * Z * Z) : Prop :=
  let '(a1, b1, c1) := r1 in
  let '(a2, b2, c2) := r2 in
  a1 < a2 \/ (a1 = a2 /\ (b1 < b2 \/ (b1 = b2 /\ c1 <= c2))).

(** ** The distance metric as a function of the objects *)

(** The distances of all pairs of objects, in the order the loops of
    [cluster_distance] visit them. *)
Definition pair_distances (l1 l2 : list obj_t) : list float :=
  o1 ← l1; obj_distance o1 <$> l2.

Definition sum_distances (ds : list float) : float :=
  foldl F32.add (F32.of_int 0) ds.

Definition min_distance (d0 : float) (ds : list float) : float :=
  foldl (fun distance new_distance =>
           if F32.gt distance new_distance then new_distance else distance)
    d0 ds.

Definition max_distance (d0 : float) (ds : list float) : float :=
  foldl (fun distance new_distance =>
           if F32.lt distance new_distance then new_distance else distance)
    d0 ds.

(** The value [cluster_distance] computes, as a function of the objects
    of both clusters. *)
Definition linkage (m : Z) (l1 l2 : list obj_t) : float :=
  let ds := pair_distances l1 l2 in
  if m =? 0 then F32.div (sum_distances ds) (F32.of_int (Z.of_nat (length ds)))
  else if m =? 1 then min_distance (default F32.zero (head ds)) ds
  else max_distance (default F32.zero (head ds)) ds.

(** ** The scan for the nearest pair *)

(** One step of the scan of [find_neighbours] over a table [D] of
    distances. *)
Definition scan_step (D : Z -> Z -> float) (i j : Z)
  (st : float * option Z * option Z) : result (float * option Z * option Z) :=
  let '(distance, c1, c2) := st in
  if F32.ge distance (D i j) then Ok (D i j, Some i, Some j)
  else Ok (distance, c1, c2).

(** The state of that scan after all pairs before [(i, j)] in scan order. *)
Definition scan_inv (D : Z -> Z -> float) (narr i j : Z)
  (st : float * option Z * option Z) : Prop :=
  let '(d, c1, c2) := st in
  F32.is_distance d = true /\
  (forall p q, (0 <= p < q /\ q < narr) -> scanned_before p q i j ->
     F32.le d (D p q) = true) /\
  ((i = 0 /\ j <= 1 /\ d = D 0 1) \/
   (exists a b, c1 = Some a /\ c2 = Some b /\ (0 <= a < b /\ b < narr) /\
      scanned_before a b i j /\ d = D a b /\
      forall p q, (0 <= p < q /\ q < narr) -> scanned_before p q i j ->
        scanned_before a b p q -> D p q <> d)).

(** [cluster_distance (&carr[p], &carr[q])] *)
Definition pair_distance (premium_case : Z) (carr : list cluster_t)
  (p q : Z) : result float :=
  a ← load carr p; b ← load carr q; cluster_distance premium_case a b.

(** The cluster in slot [p], for an index within the array. *)
Definition cluster_at (carr : list cluster_t) (p : Z) : cluster_t :=
  default (mk_cluster 0 0 []) (carr !! Z.to_nat p).

(** The table of the distances between the clusters of an array. *)
Definition distance_table (m : Z) (carr : list cluster_t) (p q : Z) : float :=
  linkage m (objects (cluster_at carr p)) (objects (cluster_at carr q)).

(** Every identifier of [before] occurs in exactly one cluster of
    [after]. *)
Definition ids_in_one_cluster (before : list obj_t)
  (after : list (list obj_t)) : Prop :=
  forall o, o ∈ before -> clusters_with_id (o_id o) after = 1%nat.

(** The number of clusters left in a loop state. *)
Definition state_size (st : loop_state) : Z :=
  let '(_, size, _, _) := st in size.

(** ** Example inputs *)

(** An allocator that never fails, and one that always does. *)
Definition plentiful : allocator := fun _ => true.
Definition exhausted : allocator := fun _ => false.

Definition point (id x y : Z) : obj_t :=
  mk_obj id (F32.of_int x) (F32.of_int y).

(** The cluster [load_clusters] builds for one object. *)
Definition singleton (o : obj_t) : cluster_t := mk_cluster 1 1 [o].

(** A cluster of the given objects, filled to its capacity. *)
Definition cluster_of (l : list obj_t) : cluster_t :=
  mk_cluster (Z.of_nat (length l)) (Z.of_nat (length l)) l.

(** The points of the end-to-end example of the specification. *)
Definition example_points : list obj_t :=
  [point 1 1 1; point 2 2 2; point 3 3 3; point 4 10 10].

Definition example_clusters : list cluster_t := singleton <$> example_points.

(** Two clusters whose average distance depends on their order. *)
Definition skew_a : cluster_t := cluster_of [point 1 0 0; point 2 1 1].
Definition skew_b : cluster_t := cluster_of [point 3 5 1; point 4 4 6].

(** A cluster with one object and a cluster with three objects at the same
    distance [sqrt 10] from it. *)
Definition ring_a : cluster_t := cluster_of [point 1 3 3].
Definition ring_b : cluster_t :=
  cluster_of [point 2 0 2; point 3 6 4; point 4 2 6].

(** Three singleton clusters, two of them with the identifier 5. *)
Definition twin_clusters : list cluster_t :=
  singleton <$> [point 5 0 0; point 7 1 0; point 5 100 100].

(** The array one iteration of the loop leaves of [twin_clusters]. *)
Definition twin_merged : list cluster_t :=
  [mk_cluster 2 11
     ([point 5 0 0; point 7 1 0] ++ replicate 9 obj_indeterminate);
   mk_cluster 1 10 (point 5 100 100 :: replicate 9 obj_indeterminate);
   mk_cluster 0 0 []].

(** An environment for the example: the file holds [example_points] and
    the count argument parses to 2. *)
Definition example_env : environment :=
  mk_env plentiful (fun _ => (2, EmptyString))
    (fun _ => (4, example_clusters)).

Definition example_argv : list string :=
  ["proj3"; "objects"; "2"; "--median"]%string.

(** Identifiers in non-decreasing order. *)
Definition nondecreasing (l : list obj_t) : Prop :=
  StronglySorted (fun a b => o_id a <= o_id b) l.

(** An object whose coordinates are NaN. *)
Definition nan_object (id : Z) : obj_t := mk_obj id S754_nan S754_nan.

(** Three singleton clusters, the first one of an object with NaN
    coordinates. *)
Definition nan_clusters : list cluster_t :=
  [singleton (nan_object 1); singleton (point 2 2 2); singleton (point 3 3 3)].

(** The method [main] takes from its fourth argument, if there is one. *)
Definition method_selected (argv : list string) (m : Z) : Prop :=
  ((length argv <= 3)%nat /\ m = 0) \/
  (exists flag, argv !! 3%nat = Some flag /\
     m = if String.eqb flag "--max" then 2
         else if String.eqb flag "--min" then 1 else 0).

(** The count [main] takes from its third argument, if there is one and
    [strtol] reads all of it as a positive number. *)
Definition count_selected (env : environment) (argv : list string)
  (narr : Z) : Prop :=
  ((length argv <= 2)%nat /\ narr = 1) \/
  (exists count v, argv !! 2%nat = Some count /\
     env_strtol env count = (v, EmptyString) /\ 0 < to_int v /\
     narr = to_int v).

(** An array whose first [n] clusters can be printed. *)
Definition printable (carr : list cluster_t) (n : Z) : Prop :=
  0 <= n <= Z.of_nat (length carr) /\
  Forall cluster_wf (take (Z.to_nat n) carr).

(** An environment whose count argument parses to the number of clusters
    of the file, and command lines for it. *)
Definition boundary_env : environment :=
  mk_env exhausted (fun _ => (4, EmptyString))
    (fun _ => (4, example_clusters)).

Definition boundary_argv : list string :=
  ["proj3"; "objects"; "4"; "--median"]%string.

Definition min_argv : list string :=
  ["proj3"; "objects"; "2"; "--min"]%string.


(** An environment whose count argument parses to 5, with a file of four
    points. *)
Definition greedy_env : environment :=
  mk_env plentiful (fun _ => (5, EmptyString))
    (fun _ => (4, example_clusters)).

(** ** The loader *)

(** What [sscanf (line, "count=%d", &count)] makes of a line: the input
    ends before the number ([EOF]), the line does not match (0), or the
    number is read (1). *)
Inductive count_scan : Type :=
| CountEnd
| CountMismatch
| CountRead (n : Z).

(** A line as [fgets] delivers it, by what the two [sscanf] calls of
    [load_clusters] make of it; [as_object] is [None] when fewer than three
    fields are converted. *)
Record line : Type := mk_line {
  as_count : count_scan;
  as_object : option obj_t
}.

Definition sizeof_cluster_t : Z := 16.

(** [0 > y || y > 1000 || 0 > x || x > 1000] *)
Definition out_of_range (object : obj_t) : bool :=
  F32.gt (F32.of_int 0) (o_y object) || F32.gt (o_y object) (F32.of_int 1000)
  || F32.gt (F32.of_int 0) (o_x object)
  || F32.gt (o_x object) (F32.of_int 1000).

(** The loop [while (fgets (line, sizeof (line), file))] of [load_clusters]
    and the statements after it, over the lines left to read.  [count] is
    [None] until the first line assigns it; [arr] is [None] for a [NULL]
    array, on which the first data line fails the assertion of
    [init_cluster]; [fresh] is the content of a slot of the array as
    [malloc] returns it.  A data line beyond the array makes
    [init_cluster] write outside it, which is undefined behaviour. *)
Fixpoint read_lines (al : allocator) (fresh : cluster_t) (lines : list line)
  (lineNumber : Z) (count : option Z) (arr : option (list cluster_t))
  : result (Z * option (list cluster_t)) :=
  match lines with
  | [] =>
      count ← read_int count;
      if negb (lineNumber =? count + 1) then Ok (0, arr) else Ok (count, arr)
  | l :: lines =>
      if lineNumber =? 0 then
        match as_count l with
        | CountMismatch => Ok (0, arr)
        | scan =>
            let count :=
              match scan with CountRead n => Some n | _ => count end in
            n ← read_int count;
            if n <? 1 then Ok (0, arr)
            else
              let arr :=
                if al (sizeof_cluster_t * n)
                then Some (replicate (Z.to_nat n) fresh)
                else None in
              read_lines al fresh lines (lineNumber + 1) count arr
        end
      else
        slots ← (match arr with Some slots => Ok slots | None => Abort end);
        slot ← load slots (lineNumber - 1);
        c ← init_cluster al slot 1;
        slots ← store slots (lineNumber - 1) c;
        match as_object l with
        | None => Ok (0, Some slots)
        | Some object =>
            if out_of_range object then Ok (0, Some slots)
            else
              c ← append_cluster al c object;
              slots ← store slots (lineNumber - 1) c;
              read_lines al fresh lines (lineNumber + 1) count (Some slots)
        end
  end.

(** [load_clusters] returns its result and leaves the array in [*arr];
    [file] is [None] when [fopen] fails. *)
Definition load_clusters (al : allocator) (fresh : cluster_t)
  (file : option (list line)) (arr : option (list cluster_t))
  : result (Z * option (list cluster_t)) :=
  match file with
  | None => Ok (0, arr)
  | Some lines => read_lines al fresh lines 0 None arr
  end.

(** The lines of a file that declares [n] objects and lists [objs]. *)
Definition file_of (n : Z) (objs : list obj_t) : list line :=
  mk_line (CountRead n) None
  :: ((fun o => mk_line CountMismatch (Some o)) <$> objs).

(** * Properties *)

(** ** Loops, loads and stores *)

Lemma for_loop_inv {St : Type} (I : Z -> St -> Prop) (n : nat) (lo : Z)
  (body : Z -> St -> result St) (s : St) :
  I lo s ->
  (forall i s, lo <= i < lo + Z.of_nat n -> I i s ->
     exists s', body i s = Ok s' /\ I (i + 1) s') ->
  exists s', for_loop n lo body s = Ok s' /\ I (lo + Z.of_nat n) s'.
Proof.
  revert lo s. induction n as [|n IH]; intros lo s H0 Hstep.
  - exists s. split; [reflexivity|]. by replace (lo + Z.of_nat 0) with lo by lia.
  - destruct (Hstep lo s) as (s1 & Hb & H1); [lia|done|].
    destruct (IH (lo + 1) s1) as (s2 & Hl & H2); [done| |].
    + intros i t Hi Ht. apply Hstep; [lia|done].
    + exists s2. split.
      * simpl. rewrite Hb. exact Hl.
      * by replace (lo + Z.of_nat (S n)) with (lo + 1 + Z.of_nat n) by lia.
Qed.

Lemma for_loop_ext {St : Type} (n : nat) (lo : Z)
  (body body' : Z -> St -> result St) (s : St) :
  (forall i s, lo <= i < lo + Z.of_nat n -> body i s = body' i s) ->
  for_loop n lo body s = for_loop n lo body' s.
Proof.
  revert lo s. induction n as [|n IH]; intros lo s Hext; [done|].
  simpl. rewrite Hext by lia. destruct (body' lo s); try done.
  simpl. apply IH. intros i t Hi. apply Hext. lia.
Qed.

Lemma while_loop_inv {St : Type} (I : St -> Prop) (measure : St -> nat)
  (cond : St -> bool) (body : St -> result St) :
  (forall s, I s -> cond s = true ->
     exists s', body s = Ok s' /\ I s' /\ (measure s' < measure s)%nat) ->
  forall fuel s, I s -> (measure s < fuel)%nat ->
  exists s', while_loop fuel cond body s = Ok s' /\ I s' /\ cond s' = false.
Proof.
  intros Hstep fuel. induction fuel as [|fuel IH]; intros s Hs Hm; [lia|].
  simpl. destruct (cond s) eqn:Hc.
  - destruct (Hstep s Hs Hc) as (s1 & Hb & H1 & Hlt).
    rewrite Hb. simpl. apply IH; [done|lia].
  - by exists s.
Qed.

Lemma load_lookup {A} (a : list A) (i : Z) (v : A) :
  0 <= i -> a !! Z.to_nat i = Some v -> load a i = Ok v.
Proof.
  intros Hi Hv. unfold load.
  destruct (Z.ltb_spec i 0); [lia|]. by rewrite Hv.
Qed.

Lemma load_Ok {A} (a : list A) (i : Z) (v : A) :
  load a i = Ok v -> 0 <= i /\ a !! Z.to_nat i = Some v.
Proof.
  unfold load. destruct (Z.ltb_spec i 0); [done|].
  destruct (a !! Z.to_nat i); [|done]. intros [= ->]. done.
Qed.

Lemma store_in_range {A} (a : list A) (i : Z) (v : A) :
  0 <= i < Z.of_nat (length a) -> store a i v = Ok (<[Z.to_nat i := v]> a).
Proof.
  intros Hi. unfold store.
  destruct (Z.leb_spec 0 i); [|lia].
  destruct (Z.ltb_spec i (Z.of_nat (length a))); [done|lia].
Qed.

Lemma store_out_of_range {A} (a : list A) (i : Z) (v : A) :
  Z.of_nat (length a) <= i -> store a i v = Undefined.
Proof.
  intros Hi. unfold store.
  destruct (Z.ltb_spec i (Z.of_nat (length a))); [lia|].
  by rewrite andb_false_r.
Qed.

(** ** The cluster store *)

Lemma grow_cap_exit (fuel : nat) (size cap : Z) :
  size - cap + 1 <= Z.of_nat fuel ->
  size < grow_cap fuel size cap /\ cap <= grow_cap fuel size cap /\
  (size < cap -> grow_cap fuel size cap = cap).
Proof.
  revert cap. induction fuel as [|fuel IH]; intros cap Hf; simpl.
  - lia.
  - destruct (Z.geb_spec size cap) as [Hge|Hlt].
    + destruct (IH (cap + CLUSTER_CHUNK)) as (H1 & H2 & _).
      { unfold CLUSTER_CHUNK. lia. }
      unfold CLUSTER_CHUNK in *. lia.
    + lia.
Qed.

Lemma realloc_block_length (p : list obj_t) (n : Z) :
  Z.of_nat (length p) <= n -> Z.of_nat (length (realloc_block p n)) = n.
Proof.
  intros Hn. unfold realloc_block.
  rewrite length_app, length_take, length_replicate.
  rewrite Nat.min_r by lia. lia.
Qed.

Lemma realloc_block_take (p : list obj_t) (n : Z) (k : nat) :
  (k <= length p)%nat -> Z.of_nat (length p) <= n ->
  take k (realloc_block p n) = take k p.
Proof.
  intros Hk Hn. unfold realloc_block.
  rewrite (take_ge p) by lia. by rewrite take_app_le by lia.
Qed.
Lemma assert_true (b : bool) : b = true -> assert b = Ok tt.
Proof. by intros ->. Qed.

Lemma take_insert_snoc {A} (l : list A) (i : nat) (x : A) :
  (i < length l)%nat -> take (S i) (<[i := x]> l) = take i l ++ [x].
Proof.
  intros Hi. rewrite (take_S_r _ _ x) by by apply list_lookup_insert_eq.
  by rewrite take_insert_ge by lia.
Qed.

Lemma append_cluster_ok (al : allocator) (c : cluster_t) (o : obj_t) :
  total_allocator al -> cluster_wf c ->
  exists c', append_cluster al c o = Ok c' /\ cluster_wf c' /\
             objects c' = objects c ++ [o].
Proof.
  intros Hal ((Hs0 & Hsc) & Hlen). unfold append_cluster.
  destruct (grow_cap_exit (Z.to_nat (cl_size c - cl_capacity c + 1))
              (cl_size c) (cl_capacity c)) as (Hgt & Hge & Hid); [lia|].
  set (cap := grow_cap _ _ _) in *.
  unfold resize_cluster.
  rewrite !assert_true by (apply Z.leb_le; lia). simpl.
  destruct (Z.geb_spec (cl_capacity c) cap) as [Hcap|Hcap]; simpl.
  - rewrite store_in_range by lia. simpl. eexists. split; [reflexivity|].
    unfold cluster_wf, objects. simpl. rewrite length_insert.
    split; [lia|].
    replace (Z.to_nat (cl_size c + 1)) with (S (Z.to_nat (cl_size c))) by lia.
    apply take_insert_snoc. lia.
  - rewrite Hal. simpl.
    pose proof (realloc_block_length (cl_obj c) cap) as Hrl.
    rewrite store_in_range by lia. simpl. eexists. split; [reflexivity|].
    unfold cluster_wf, objects. simpl. rewrite length_insert.
    split; [lia|].
    replace (Z.to_nat (cl_size c + 1)) with (S (Z.to_nat (cl_size c))) by lia.
    rewrite take_insert_snoc by lia.
    by rewrite realloc_block_take by lia.
Qed.

(** ** Sorting by identifier *)

Lemma compar_le_id (a b : obj_t) :
  compar_le obj_sort_compar a b <-> o_id a <= o_id b.
Proof.
  unfold compar_le, obj_sort_compar.
  destruct (Z.ltb_spec (o_id a) (o_id b)); [lia|].
  destruct (Z.gtb_spec (o_id a) (o_id b)); lia.
Qed.

Global Instance compar_le_total : Total (compar_le obj_sort_compar).
Proof. intros a b. rewrite !compar_le_id. lia. Qed.

Global Instance compar_le_trans : Transitive (compar_le obj_sort_compar).
Proof. intros a b c. rewrite !compar_le_id. lia. Qed.

Lemma qsort_perm (l : list obj_t) : qsort obj_sort_compar l ≡ₚ l.
Proof. apply merge_sort_Permutation. Qed.

Lemma qsort_length (l : list obj_t) :
  length (qsort obj_sort_compar l) = length l.
Proof. apply Permutation_length, qsort_perm. Qed.

Lemma qsort_sorted (l : list obj_t) :
  StronglySorted (compar_le obj_sort_compar) (qsort obj_sort_compar l).
Proof. apply StronglySorted_merge_sort; apply _. Qed.

Lemma ascending_inj (l : list obj_t) (a b : obj_t) :
  ascending l -> a ∈ l -> b ∈ l -> o_id a = o_id b -> a = b.
Proof.
  induction 1 as [|x l Hl IH Hx]; intros Ha Hb Hid.
  - by apply elem_of_nil in Ha.
  - rewrite Forall_forall in Hx.
    apply elem_of_cons in Ha as [->|Ha]; apply elem_of_cons in Hb as [->|Hb].
    + done.
    + specialize (Hx _ Hb). lia.
    + specialize (Hx _ Ha). lia.
    + by apply IH.
Qed.

Lemma ascending_sorted (l : list obj_t) :
  ascending l -> StronglySorted (compar_le obj_sort_compar) l.
Proof.
  induction 1 as [|x l Hl IH Hx]; constructor; [done|].
  eapply Forall_impl; [exact Hx|]. intros y Hy. simpl in Hy. apply compar_le_id. lia.
Qed.

(** Sorting leaves a strictly ascending sequence as it is; so does every
    other sorting function, a sorted permutation being unique then. *)
Lemma sorted_perm_ascending (l k : list obj_t) :
  ascending l -> StronglySorted (compar_le obj_sort_compar) k -> k ≡ₚ l ->
  k = l.
Proof.
  intros Hl Hk Hp.
  apply (StronglySorted_unique_strong (compar_le obj_sort_compar));
    [|done|by apply ascending_sorted|done].
  intros x1 x2 H1 H2 Hle1 Hle2. apply (ascending_inj l); [done| |done|].
  - by rewrite <- Hp.
  - apply compar_le_id in Hle1, Hle2. lia.
Qed.

Lemma qsort_ascending_id (l : list obj_t) :
  ascending l -> qsort obj_sort_compar l = l.
Proof.
  intros Hl. apply sorted_perm_ascending;
    [done|apply qsort_sorted|apply qsort_perm].
Qed.

Lemma sorted_nodup_ascending (l : list obj_t) :
  StronglySorted (compar_le obj_sort_compar) l -> NoDup (o_id <$> l) ->
  ascending l.
Proof.
  induction 1 as [|x l Hl IH Hx]; intros Hnd; [constructor|].
  rewrite fmap_cons in Hnd. apply NoDup_cons in Hnd as [Hnin Hnd].
  constructor; [by apply IH|].
  rewrite Forall_forall in Hx |- *. intros y Hy.
  specialize (Hx y Hy). apply compar_le_id in Hx.
  assert (o_id x <> o_id y); [|lia].
  intros Heq. apply Hnin. rewrite Heq. by apply list_elem_of_fmap_2.
Qed.

Lemma qsort_ascending (l : list obj_t) :
  NoDup (o_id <$> l) -> ascending (qsort obj_sort_compar l).
Proof.
  intros Hnd. apply sorted_nodup_ascending; [apply qsort_sorted|].
  by rewrite qsort_perm.
Qed.

(** ** Merging *)

Lemma objects_length (c : cluster_t) :
  cluster_wf c -> Z.of_nat (length (objects c)) = cl_size c.
Proof.
  intros ((H0 & H1) & H2). unfold objects. rewrite length_take.
  rewrite Nat.min_l by lia. lia.
Qed.

Lemma objects_lookup (c : cluster_t) (i : Z) :
  cluster_wf c -> 0 <= i < cl_size c ->
  exists o, load (cl_obj c) i = Ok o /\ objects c !! Z.to_nat i = Some o.
Proof.
  intros ((H0 & H1) & H2) Hi.
  destruct (lookup_lt_is_Some_2 (cl_obj c) (Z.to_nat i)) as [o Ho]; [lia|].
  exists o. split; [apply load_lookup; [lia|done]|].
  unfold objects. rewrite lookup_take_lt by lia. done.
Qed.

Lemma sort_cluster_ok (c : cluster_t) :
  cluster_wf c ->
  exists c', sort_cluster c = Ok c' /\ cluster_wf c' /\
             objects c' = qsort obj_sort_compar (objects c) /\
             cl_size c' = cl_size c.
Proof.
  intros ((H0 & H1) & H2). unfold sort_cluster.
  destruct (Z.leb_spec 0 (cl_size c)); [|lia].
  destruct (Z.leb_spec (cl_size c) (Z.of_nat (length (cl_obj c)))); [|lia].
  simpl. eexists. split; [reflexivity|].
  assert (length (qsort obj_sort_compar (take (Z.to_nat (cl_size c)) (cl_obj c)))
          = Z.to_nat (cl_size c)) as Hlen.
  { rewrite qsort_length, length_take. lia. }
  unfold cluster_wf, objects. simpl. repeat split; try lia.
  - rewrite length_app, Hlen, length_drop. lia.
  - by rewrite take_app_length'.
Qed.

Lemma merge_clusters_ok (al : allocator) (c1 c2 : cluster_t) :
  total_allocator al -> cluster_wf c1 -> cluster_wf c2 ->
  exists c', merge_clusters al c1 c2 = Ok c' /\ cluster_wf c' /\
             objects c' = qsort obj_sort_compar (objects c1 ++ objects c2) /\
             cl_size c' = cl_size c1 + cl_size c2.
Proof.
  intros Hal Hw1 Hw2. unfold merge_clusters.
  pose proof (objects_length c1 Hw1) as Hl1.
  pose proof (objects_length c2 Hw2) as Hl2.
  destruct (for_loop_inv
    (fun i c => cluster_wf c /\
                objects c = objects c1 ++ take (Z.to_nat i) (objects c2))
    (Z.to_nat (cl_size c2)) 0
    (fun i c => o ← load (cl_obj c2) i; append_cluster al c o) c1)
    as (c & Hloop & Hw & Hobj).
  - split; [done|]. simpl. by rewrite app_nil_r.
  - intros i c Hi (Hw & Hobj).
    destruct (objects_lookup c2 i Hw2) as (o & Hld & Ho); [lia|].
    rewrite Hld. simpl.
    destruct (append_cluster_ok al c o Hal Hw) as (c' & Happ & Hw' & Hobj').
    exists c'. split; [done|]. split; [done|].
    rewrite Hobj', Hobj, <- app_assoc. f_equal.
    replace (Z.to_nat (i + 1)) with (S (Z.to_nat i)) by lia.
    by rewrite (take_S_r _ _ o).
  - rewrite Hloop. simpl.
    destruct (sort_cluster_ok c Hw) as (c' & Hsort & Hw' & Hobj' & Hsz).
    exists c'. split; [done|]. split; [done|].
    rewrite take_ge in Hobj by lia.
    split; [by rewrite Hobj', Hobj|].
    rewrite Hsz, <- (objects_length c Hw), Hobj, length_app. lia.
Qed.

(** ** Removal and compaction *)

Lemma bind_ok {A B} (a : A) (k : A -> result B) : Ok a ≫= k = k a.
Proof. reflexivity. Qed.

Lemma clear_cluster_wf (c : cluster_t) : cluster_wf (clear_cluster c).
Proof. unfold cluster_wf, clear_cluster. simpl. lia. Qed.

Lemma remove_cluster_ok (al : allocator) (carr : list cluster_t)
  (narr idx : Z) :
  total_allocator al ->
  0 <= idx < narr -> narr <= Z.of_nat (length carr) ->
  (forall (k : nat) (c : cluster_t),
     idx < Z.of_nat k < narr -> carr !! k = Some c -> cluster_wf c) ->
  exists carr', remove_cluster al carr narr idx = Ok (carr', narr - 1) /\
                removed carr carr' narr idx.
Proof.
  intros Hal Hidx Hlen Hwf. unfold remove_cluster.
  rewrite !assert_true by (apply Z.ltb_lt; lia).
  repeat (rewrite bind_ok; cbv beta).
  match goal with |- context [while_loop ?f ?c ?b _] =>
    set (body := b); set (cond := c); set (fuel := f) end.
  set (I := fun s : list cluster_t * Z =>
    let '(cur, i) := s in
    idx <= i <= narr /\ length cur = length carr /\
    (forall k : nat, Z.of_nat k < idx \/ i <= Z.of_nat k ->
       cur !! k = carr !! k) /\
    (forall k : nat, idx <= Z.of_nat k < i ->
       (Z.of_nat k = narr - 1 -> cur !! k = Some (mk_cluster 0 0 [])) /\
       (forall c, Z.of_nat k < narr - 1 -> carr !! S k = Some c ->
          exists c', cur !! k = Some c' /\ cluster_wf c' /\
                     objects c' = qsort obj_sort_compar (objects c) /\
                     cl_size c' = cl_size c))).
  destruct (while_loop_inv I (fun s => Z.to_nat (narr - s.2)) cond body) with
    (fuel := fuel) (s := (carr, idx))
    as ([cur i] & Hloop & HI & Hcond).
  - intros [cur i] (Hi & Hl & Hsame & Hdone) Hc. apply Z.ltb_lt in Hc.
    unfold body.
    destruct (lookup_lt_is_Some_2 cur (Z.to_nat i)) as [c Hc0]; [lia|].
    rewrite (load_lookup _ _ c) by (done || lia). simpl.
    rewrite store_in_range by lia. simpl.
    destruct (Z.eqb_spec i (narr - 1)) as [Hlast|Hlast]; simpl.
    + eexists. split; [reflexivity|]. split; [|simpl; lia].
      split; [lia|]. split; [by rewrite length_insert|]. split.
      * intros k Hk. rewrite list_lookup_insert_ne by lia. apply Hsame. lia.
      * intros k Hk. destruct (decide (k = Z.to_nat i)) as [->|Hne].
        -- split; [|lia]. intros _. apply list_lookup_insert_eq. lia.
        -- rewrite list_lookup_insert_ne by lia. apply Hdone. lia.
    + rewrite (load_lookup _ i (clear_cluster c))
        by (lia || (apply list_lookup_insert_eq; lia)). simpl.
      destruct (lookup_lt_is_Some_2 carr (Z.to_nat (i + 1))) as [c2 Hc2];
        [lia|].
      assert (cluster_wf c2) as Hw2 by (apply (Hwf (Z.to_nat (i + 1))); [lia|done]).
      rewrite (load_lookup _ (i + 1) c2); [|lia|].
      2:{ rewrite list_lookup_insert_ne by lia. rewrite Hsame by lia. done. }
      simpl.
      destruct (merge_clusters_ok al (clear_cluster c) c2 Hal
                  (clear_cluster_wf c) Hw2) as (c' & Hm & Hw' & Hobj & Hsz).
      rewrite Hm. simpl.
      rewrite store_in_range by (rewrite length_insert; lia). simpl.
      eexists. split; [reflexivity|]. split; [|simpl; lia].
      split; [lia|]. split; [by rewrite !length_insert|]. split.
      * intros k Hk. rewrite !list_lookup_insert_ne by lia. apply Hsame. lia.
      * intros k Hk. destruct (decide (k = Z.to_nat i)) as [->|Hne].
        -- split; [lia|]. intros c3 _ Hc3. exists c'.
           replace (S (Z.to_nat i)) with (Z.to_nat (i + 1)) in Hc3 by lia.
           assert (c3 = c2) as -> by congruence.
           split; [apply list_lookup_insert_eq; rewrite length_insert; lia|].
           done.
        -- rewrite !list_lookup_insert_ne by lia. apply Hdone. lia.
  - unfold I. split; [lia|]. split; [done|]. split; [done|]. intros k Hk. lia.
  - unfold fuel. simpl. lia.
  - rewrite Hloop. simpl. apply Z.ltb_ge in Hcond.
    destruct HI as (Hi & Hl & Hsame & Hdone). assert (i = narr) as -> by lia.
    eexists. split; [reflexivity|]. split; [done|]. split.
    { intros k Hk. apply Hsame. lia. }
    split.
    { intros k c Hk Hc. apply (Hdone k); [lia|lia|done]. }
    destruct (Hdone (Z.to_nat (narr - 1))) as [Hlast _]; [lia|].
    apply Hlast. lia.
Qed.

(** ** Binary32: the class of a rounded result *)

Lemma iter_pos_inv {A} (P : A -> Prop) (f : A -> A) :
  (forall x, P x -> P (f x)) ->
  forall (n : positive) (x : A), P x -> P (SpecFloat.iter_pos f n x).
Proof.
  intros Hf n. induction n as [n IH|n IH|]; intros x Hx; simpl; auto.
Qed.

Lemma shr_1_nonneg (mrs : shr_record) :
  0 <= shr_m mrs -> 0 <= shr_m (shr_1 mrs).
Proof.
  destruct mrs as [m r s]. simpl. intros Hm.
  destruct m as [|[p|p|]|p]; simpl; lia.
Qed.

Lemma shr_nonneg (mrs : shr_record) (e n : Z) :
  0 <= shr_m mrs -> 0 <= shr_m (shr mrs e n).1.
Proof.
  intros Hm. destruct n; simpl; try done.
  apply (iter_pos_inv (fun r => 0 <= shr_m r)); [apply shr_1_nonneg|done].
Qed.

Lemma shr_record_of_loc_m (m : Z) (l : location) :
  shr_m (shr_record_of_loc m l) = m.
Proof. by destruct l as [|[]]. Qed.

Lemma shr_fexp_nonneg (m e : Z) (l : location) :
  0 <= m -> 0 <= shr_m (shr_fexp F32.prec F32.emax m e l).1.
Proof.
  intros Hm. unfold shr_fexp. apply shr_nonneg.
  by rewrite shr_record_of_loc_m.
Qed.

Lemma round_nearest_even_nonneg (m : Z) (l : location) :
  0 <= m -> 0 <= round_nearest_even m l.
Proof.
  intros Hm. destruct l as [|[]]; simpl; try lia.
  destruct (Z.even m); lia.
Qed.

Lemma binary_round_aux_sign (s : bool) (m e : Z) (l : location) :
  0 <= m -> has_sign s (binary_round_aux F32.prec F32.emax s m e l).
Proof.
  intros Hm. unfold binary_round_aux.
  pose proof (shr_fexp_nonneg m e l Hm) as H1.
  destruct (shr_fexp F32.prec F32.emax m e l) as [mrs' e'].
  simpl in H1.
  pose proof (shr_fexp_nonneg
    (round_nearest_even (shr_m mrs') (loc_of_shr_record mrs')) e' loc_Exact
    (round_nearest_even_nonneg _ _ H1)) as H2.
  destruct (shr_fexp F32.prec F32.emax _ e' loc_Exact) as [mrs'' e''].
  simpl in H2. destruct (shr_m mrs''); simpl; [done| |lia].
  by destruct (e'' <=? _).
Qed.

Lemma binary_round_sign (s : bool) (m : positive) (e : Z) :
  has_sign s (binary_round F32.prec F32.emax s m e).
Proof.
  unfold binary_round. destruct (shl_align _ _ _) as [mz ez].
  by apply binary_round_aux_sign.
Qed.

Lemma binary_normalize_not_nan (m e : Z) (sz : bool) :
  F32.is_nan (binary_normalize F32.prec F32.emax m e sz) = false.
Proof.
  destruct m as [|p|p]; simpl; [done| |].
  - pose proof (binary_round_sign false p e) as H.
    by destruct (binary_round _ _ _ _ _).
  - pose proof (binary_round_sign true p e) as H.
    by destruct (binary_round _ _ _ _ _).
Qed.

Lemma binary_normalize_pos (p : positive) (e : Z) (sz : bool) :
  has_sign false (binary_normalize F32.prec F32.emax (Z.pos p) e sz).
Proof. apply binary_round_sign. Qed.

Lemma has_sign_distance (a : float) :
  has_sign false a <-> F32.is_distance a = true.
Proof. destruct a as [[]|[]| |[] ? ?]; simpl; split; done. Qed.

(** ** Binary32: the order of distances *)

Lemma rank_inj (a b : float) :
  F32.is_distance a = true -> F32.is_distance b = true ->
  rank a = rank b -> a = b.
Proof.
  destruct a as [[]|[]| |[] ? ?], b as [[]|[]| |[] ? ?]; simpl; try done.
  intros _ _ [= -> ->]. done.
Qed.

Lemma le_rank (a b : float) :
  F32.is_distance a = true -> F32.is_distance b = true ->
  F32.le a b = true <-> rank_le (rank a) (rank b).
Proof.
  unfold F32.le, SFleb.
  destruct a as [[]|[]| |[] m1 e1], b as [[]|[]| |[] m2 e2]; simpl;
    try done; intros _ _; try (split; [intros _; lia | done]);
    try (split; [done | lia]).
  destruct (Z.compare_spec e1 e2) as [->|Hlt|Hgt].
  - rewrite Pos.compare_cont_spec. simpl.
    destruct (Pos.compare_spec m1 m2) as [->|Hm|Hm]; split; try done; lia.
  - split; [lia|done].
  - split; [done|lia].
Qed.

Lemma lt_rank (a b : float) :
  F32.is_distance a = true -> F32.is_distance b = true ->
  F32.lt a b = true <-> ~ rank_le (rank b) (rank a).
Proof.
  unfold F32.lt, SFltb.
  destruct a as [[]|[]| |[] m1 e1], b as [[]|[]| |[] m2 e2]; simpl;
    try done; intros _ _; try (split; [intros _; lia | done]);
    try (split; [done | lia]).
  destruct (Z.compare_spec e1 e2) as [->|Hlt|Hgt].
  - rewrite Pos.compare_cont_spec. simpl.
    destruct (Pos.compare_spec m1 m2) as [->|Hm|Hm]; split; try done; lia.
  - split; [lia|done].
  - split; [done|lia].
Qed.

Lemma le_refl (a : float) :
  F32.is_distance a = true -> F32.le a a = true.
Proof.
  intros Ha. apply le_rank; [done..|].
  unfold rank_le. destruct (rank a) as [[? ?] ?]. lia.
Qed.

Lemma le_trans (a b c : float) :
  F32.is_distance a = true -> F32.is_distance b = true ->
  F32.is_distance c = true ->
  F32.le a b = true -> F32.le b c = true -> F32.le a c = true.
Proof.
  intros Ha Hb Hc. rewrite !le_rank by done. unfold rank_le.
  destruct (rank a) as [[? ?] ?], (rank b) as [[? ?] ?],
    (rank c) as [[? ?] ?]. lia.
Qed.

Lemma le_antisym (a b : float) :
  F32.is_distance a = true -> F32.is_distance b = true ->
  F32.le a b = true -> F32.le b a = true -> a = b.
Proof.
  intros Ha Hb. rewrite !le_rank by done. intros H1 H2.
  apply rank_inj; [done..|]. unfold rank_le in *.
  destruct (rank a) as [[? ?] ?], (rank b) as [[? ?] ?].
  f_equal; [f_equal|]; lia.
Qed.

Lemma le_total (a b : float) :
  F32.is_distance a = true -> F32.is_distance b = true ->
  F32.le a b = false -> F32.le b a = true /\ a <> b.
Proof.
  intros Ha Hb Hab. split.
  - apply le_rank; [done..|].
    assert (~ rank_le (rank a) (rank b)) as Hn.
    { rewrite <- le_rank by done. by rewrite Hab. }
    unfold rank_le in *.
    destruct (rank a) as [[? ?] ?], (rank b) as [[? ?] ?]. lia.
  - intros ->. by rewrite le_refl in Hab.
Qed.

Lemma gt_false_le (a b : float) :
  F32.is_distance a = true -> F32.is_distance b = true ->
  F32.gt a b = false -> F32.le a b = true.
Proof.
  intros Ha Hb Hgt. unfold F32.gt in Hgt. fold (F32.lt b a) in Hgt.
  destruct (F32.le a b) eqn:Hle; [done|].
  assert (F32.lt b a = true) as Hlt; [|congruence].
  apply lt_rank; [done..|]. rewrite <- le_rank by done. by rewrite Hle.
Qed.

Lemma gt_true_le (a b : float) :
  F32.is_distance a = true -> F32.is_distance b = true ->
  F32.gt a b = true -> F32.le b a = true.
Proof.
  intros Ha Hb Hgt. unfold F32.gt in Hgt. fold (F32.lt b a) in Hgt.
  apply lt_rank in Hgt; [|done..]. apply le_rank; [done..|].
  unfold rank_le in *.
  destruct (rank a) as [[? ?] ?], (rank b) as [[? ?] ?]. lia.
Qed.

(** ** Binary32: distances are never NaN *)

Lemma has_sign_not_nan (s : bool) (a : float) :
  has_sign s a -> F32.is_nan a = false.
Proof. by destruct a. Qed.

Lemma sub_not_nan (a b : float) :
  F32.is_finite a = true -> F32.is_finite b = true ->
  F32.is_nan (F32.sub a b) = false.
Proof.
  destruct a as [sa| | |sa ma ea], b as [sb| | |sb mb eb]; simpl; try done;
    intros _ _.
  - by destruct sa, sb.
  - apply binary_normalize_not_nan.
Qed.

Lemma mul_self_distance (a : float) :
  F32.is_nan a = false -> F32.is_distance (F32.mul a a) = true.
Proof.
  destruct a as [s|s| |s m e]; simpl; try done; intros _.
  - by destruct s.
  - by destruct s.
  - apply has_sign_distance. replace (xorb s s) with false by by destruct s.
    by apply binary_round_aux_sign.
Qed.

Lemma add_distance (a b : float) :
  F32.is_distance a = true -> F32.is_distance b = true ->
  F32.is_distance (F32.add a b) = true.
Proof.
  destruct a as [[]|[]| |[] ma ea], b as [[]|[]| |[] mb eb]; simpl;
    try done; intros _ _.
  apply has_sign_distance. apply (binary_normalize_pos _ _ false).
Qed.

Lemma sqrtf_distance (a : float) :
  F32.is_distance a = true -> F32.is_distance (F32.sqrtf a) = true.
Proof.
  destruct a as [[]|[]| |[] m e]; simpl; try done; intros _.
  apply has_sign_distance. unfold F32.sqrtf, SFsqrt, SFsqrt_core_binary.
  match goal with |- context [Z.sqrtrem ?x] =>
    pose proof (Z.sqrtrem_sqrt x) as Hq; pose proof (Z.sqrt_nonneg x) as H0;
    destruct (Z.sqrtrem x) as [q r] end.
  simpl in Hq. subst q. by apply binary_round_aux_sign.
Qed.

Lemma div_distance (a : float) (m : positive) (e : Z) :
  F32.is_distance a = true ->
  F32.is_distance (F32.div a (S754_finite false m e)) = true.
Proof.
  destruct a as [[]|[]| |[] ma ea]; simpl; try done; intros _.
  apply has_sign_distance. unfold F32.div, SFdiv, SFdiv_core_binary.
  match goal with |- context [Z.div_eucl ?x ?y] =>
    assert (0 <= x) as Hx;
    [|pose proof (Z_div_mod x y eq_refl) as Hd;
      destruct (Z.div_eucl x y) as [q r]] end.
  { match goal with |- 0 <= match ?s with _ => _ end =>
      destruct s eqn:Hs; [lia| |lia] end.
    by apply Z.shiftl_nonneg. }
  simpl. apply binary_round_aux_sign. nia.
Qed.

Lemma coord_ok_finite (a : float) : coord_ok a = true -> F32.is_finite a = true.
Proof.
  unfold coord_ok. intros H. apply andb_prop in H as [H H2].
  apply andb_prop in H as [_ H1].
  by destruct a as [?|[]| |? ? ?].
Qed.

Lemma finite_not_nan (a : float) :
  F32.is_finite a = true -> F32.is_nan a = false.
Proof. by destruct a. Qed.

Lemma obj_distance_distance (o1 o2 : obj_t) :
  obj_valid o1 -> obj_valid o2 -> F32.is_distance (obj_distance o1 o2) = true.
Proof.
  intros [Hx1 Hy1] [Hx2 Hy2]. unfold obj_distance.
  apply sqrtf_distance, add_distance; apply mul_self_distance, sub_not_nan;
    by apply coord_ok_finite.
Qed.

(** ** Binary32: the distance of two objects is symmetric *)

Lemma binary_round_aux_abs (s s' : bool) (m e : Z) (l : location) :
  SFabs (binary_round_aux F32.prec F32.emax s m e l) =
  SFabs (binary_round_aux F32.prec F32.emax s' m e l).
Proof.
  unfold binary_round_aux.
  destruct (shr_fexp F32.prec F32.emax m e l) as [mrs' e'].
  destruct (shr_fexp F32.prec F32.emax _ e' loc_Exact) as [mrs'' e''].
  destruct (shr_m mrs''); simpl; try done. by destruct (e'' <=? _).
Qed.

Lemma binary_normalize_opp_abs (m e : Z) :
  SFabs (binary_normalize F32.prec F32.emax (- m) e false) =
  SFabs (binary_normalize F32.prec F32.emax m e false).
Proof.
  destruct m as [|p|p]; simpl; [done| |]; unfold binary_round;
    destruct (shl_align _ _ _); apply binary_round_aux_abs.
Qed.

Lemma sub_swap_abs (a b : float) :
  SFabs (F32.sub a b) = SFabs (F32.sub b a).
Proof.
  destruct a as [sa|sa| |sa ma ea], b as [sb|sb| |sb mb eb]; simpl;
    try done; try (by destruct sa, sb).
  rewrite <- binary_normalize_opp_abs, (Z.min_comm eb ea). f_equal. f_equal.
  lia.
Qed.

Lemma mul_self_abs (a b : float) :
  SFabs a = SFabs b -> F32.mul a a = F32.mul b b.
Proof.
  destruct a as [sa|sa| |sa ma ea], b as [sb|sb| |sb mb eb]; simpl;
    try done.
  - by destruct sa, sb.
  - by destruct sa, sb.
  - intros [= -> ->]. by destruct sa, sb.
Qed.

Lemma obj_distance_sym (o1 o2 : obj_t) :
  obj_distance o1 o2 = obj_distance o2 o1.
Proof.
  unfold obj_distance.
  rewrite (mul_self_abs _ _ (sub_swap_abs (o_x o1) (o_x o2))).
  by rewrite (mul_self_abs _ _ (sub_swap_abs (o_y o1) (o_y o2))).
Qed.

(** ** Binary32: the conversion of a count is a positive number *)

Lemma digits2_pos_bounds (p : positive) :
  2 ^ (Z.pos (digits2_pos p) - 1) <= Z.pos p < 2 ^ Z.pos (digits2_pos p).
Proof.
  induction p as [p IH|p IH|]; simpl digits2_pos; [| |simpl; lia].
  - rewrite Pos2Z.inj_succ.
    replace (Z.succ (Z.pos (digits2_pos p)) - 1)
      with (Z.succ (Z.pos (digits2_pos p) - 1)) by lia.
    rewrite !Z.pow_succ_r by lia. lia.
  - rewrite Pos2Z.inj_succ.
    replace (Z.succ (Z.pos (digits2_pos p)) - 1)
      with (Z.succ (Z.pos (digits2_pos p) - 1)) by lia.
    rewrite !Z.pow_succ_r by lia. lia.
Qed.

(** The number of digits is determined by the bounds. *)
Lemma digits2_pos_unique (p : positive) (d : Z) :
  2 ^ (d - 1) <= Z.pos p < 2 ^ d -> 0 < d -> Z.pos (digits2_pos p) = d.
Proof.
  intros [Hlo Hhi] Hd. destruct (digits2_pos_bounds p) as [Hl Hh].
  assert (d - 1 < Z.pos (digits2_pos p)).
  { apply (Z.pow_lt_mono_r_iff 2); lia. }
  assert (Z.pos (digits2_pos p) - 1 < d).
  { apply (Z.pow_lt_mono_r_iff 2); lia. }
  lia.
Qed.

Lemma digits2_pos_iter_xO (p k : positive) :
  Z.pos (digits2_pos (Pos.iter xO p k)) = Z.pos (digits2_pos p) + Z.pos k.
Proof.
  induction k as [|k IH] using Pos.peano_ind.
  - simpl. lia.
  - rewrite Pos.iter_succ. simpl digits2_pos. lia.
Qed.

Lemma shr_1_digits (mrs : shr_record) (q : positive) :
  shr_m mrs = Z.pos q -> 1 < Z.pos (digits2_pos q) ->
  exists q', shr_m (shr_1 mrs) = Z.pos q' /\
             Z.pos (digits2_pos q') = Z.pos (digits2_pos q) - 1.
Proof.
  destruct mrs as [m r s]. simpl. intros -> Hd.
  destruct q as [q|q|]; simpl in *; [exists q; lia|exists q; lia|lia].
Qed.

Lemma iter_shr_1_digits (k : positive) :
  forall (mrs : shr_record) (q : positive),
  shr_m mrs = Z.pos q -> Z.pos k < Z.pos (digits2_pos q) ->
  exists q', shr_m (SpecFloat.iter_pos shr_1 k mrs) = Z.pos q' /\
             Z.pos (digits2_pos q') = Z.pos (digits2_pos q) - Z.pos k.
Proof.
  induction k as [k IH|k IH|]; intros mrs q Hm Hk; simpl.
  - destruct (shr_1_digits mrs q Hm) as (q1 & H1 & D1); [lia|].
    destruct (IH _ q1 H1) as (q2 & H2 & D2); [lia|].
    destruct (IH _ q2 H2) as (q3 & H3 & D3); [lia|].
    exists q3. split; [done|lia].
  - destruct (IH _ q Hm) as (q2 & H2 & D2); [lia|].
    destruct (IH _ q2 H2) as (q3 & H3 & D3); [lia|].
    exists q3. split; [done|lia].
  - apply shr_1_digits; [done|lia].
Qed.

(** [shr_fexp] on a mantissa of [d] digits, in the range of the normal
    numbers: the result has [min d 24] digits. *)
Lemma shr_fexp_digits (p : positive) (e : Z) (l : location) :
  -125 <= Z.pos (digits2_pos p) + e ->
  exists q,
    shr_m (shr_fexp F32.prec F32.emax (Z.pos p) e l).1 = Z.pos q /\
    Z.pos (digits2_pos q) = Z.min (Z.pos (digits2_pos p)) 24 /\
    (shr_fexp F32.prec F32.emax (Z.pos p) e l).2 =
      e + Z.max 0 (Z.pos (digits2_pos p) - 24) /\
    (Z.pos (digits2_pos p) <= 24 ->
     (shr_fexp F32.prec F32.emax (Z.pos p) e l).1 =
       shr_record_of_loc (Z.pos p) l).
Proof.
  intros Hr. unfold shr_fexp, fexp, emin, F32.prec, F32.emax. simpl Zdigits2.
  set (d := Z.pos (digits2_pos p)) in *.
  replace (Z.max (d + e - 24) (3 - 128 - 24) - e) with (d - 24) by lia.
  destruct (d - 24) as [|k|k] eqn:Hk; simpl.
  - exists p. rewrite shr_record_of_loc_m. fold d. repeat split; lia.
  - destruct (iter_shr_1_digits k (shr_record_of_loc (Z.pos p) l) p)
      as (q & Hq & Dq); [apply shr_record_of_loc_m|fold d; lia|].
    exists q. fold d in Dq. repeat split; lia.
  - exists p. rewrite shr_record_of_loc_m. fold d. repeat split; lia.
Qed.

Lemma round_nearest_even_cases (m : Z) (l : location) :
  round_nearest_even m l = m \/ round_nearest_even m l = m + 1.
Proof.
  destruct l as [|[]]; simpl; auto. destruct (Z.even m); auto.
Qed.

(** Rounding an exact positive mantissa within the normal range gives a
    finite number. *)
Lemma binary_round_aux_finite (s : bool) (p : positive) (e : Z) :
  -125 <= Z.pos (digits2_pos p) + e <= 127 -> e <= 103 ->
  exists m e',
    binary_round_aux F32.prec F32.emax s (Z.pos p) e loc_Exact =
    S754_finite s m e'.
Proof.
  intros Hr He. unfold binary_round_aux.
  destruct (shr_fexp_digits p e loc_Exact) as (q & Hq & Dq & He' & _); [lia|].
  destruct (shr_fexp F32.prec F32.emax (Z.pos p) e loc_Exact) as [mrs' e'].
  simpl in Hq, He'. rewrite Hq.
  set (r := round_nearest_even (Z.pos q) (loc_of_shr_record mrs')).
  destruct (digits2_pos_bounds q) as [Hql Hqh].
  assert (exists q2, r = Z.pos q2 /\
            Z.pos (digits2_pos q) <= Z.pos (digits2_pos q2)
              <= Z.pos (digits2_pos q) + 1) as (q2 & Hr2 & Dq2).
  { assert (Z.pos q <= r <= Z.pos q + 1) as Hrb.
    { unfold r.
      destruct (round_nearest_even_cases (Z.pos q) (loc_of_shr_record mrs'))
        as [-> | ->]; lia. }
    destruct r as [|q2|q2]; [lia| |lia]. exists q2. split; [done|].
    destruct (Z.eq_dec (Z.pos q2) (2 ^ Z.pos (digits2_pos q))) as [Heq|Hne].
    - rewrite (digits2_pos_unique q2 (Z.pos (digits2_pos q) + 1)); [lia| |lia].
      replace (Z.pos (digits2_pos q) + 1 - 1) with (Z.pos (digits2_pos q))
        by lia.
      rewrite Z.pow_add_r by lia. lia.
    - rewrite (digits2_pos_unique q2 (Z.pos (digits2_pos q))); lia. }
  rewrite Hr2.
  destruct (shr_fexp_digits q2 e' loc_Exact) as (q3 & Hq3 & _ & He'' & _);
    [lia|].
  destruct (shr_fexp F32.prec F32.emax (Z.pos q2) e' loc_Exact)
    as [mrs'' e''].
  simpl in Hq3, He''. rewrite Hq3.
  unfold F32.emax, F32.prec.
  destruct (Z.leb_spec e'' (128 - 24)); [by eauto|lia].
Qed.

Lemma of_int_finite (n : Z) :
  0 < n <= INT_MAX ->
  exists m e, F32.of_int n = S754_finite false m e.
Proof.
  intros [H0 Hmax]. destruct n as [|p|p]; [lia| |lia].
  unfold F32.of_int, binary_normalize, binary_round.
  destruct (digits2_pos_bounds p) as [Hl Hh].
  assert (Z.pos (digits2_pos p) <= 31) as Hd.
  { assert (Z.pos (digits2_pos p) - 1 < 31); [|lia].
    apply (Z.pow_lt_mono_r_iff 2); [lia..|]. unfold INT_MAX in Hmax. lia. }
  unfold shl_align, fexp, emin, F32.prec, F32.emax.
  set (d := Z.pos (digits2_pos p)) in *.
  replace (Z.max (d + 0 - 24) (3 - 128 - 24) - 0) with (d - 24) by lia.
  destruct (d - 24) as [|k|k] eqn:Hk.
  - apply binary_round_aux_finite; fold d; lia.
  - apply binary_round_aux_finite; fold d; lia.
  - apply binary_round_aux_finite; [|lia].
    rewrite digits2_pos_iter_xO. fold d. lia.
Qed.

Lemma div_count_distance (a : float) (n : Z) :
  F32.is_distance a = true -> 0 < n <= INT_MAX ->
  F32.is_distance (F32.div a (F32.of_int n)) = true.
Proof.
  intros Ha Hn. destruct (of_int_finite n Hn) as (m & e & ->).
  by apply div_distance.
Qed.

(** ** The distance of two clusters *)

Lemma objects_load (c : cluster_t) (i : Z) (o : obj_t) :
  0 <= i -> objects c !! Z.to_nat i = Some o -> load (cl_obj c) i = Ok o.
Proof.
  intros Hi Ho. apply load_lookup; [done|].
  unfold objects in Ho. by apply lookup_take_Some in Ho as [Ho _].
Qed.

Lemma for_loop_objects {St : Type} (c : cluster_t)
  (body : Z -> St -> result St) (h : St -> obj_t -> St) (s : St) :
  cluster_wf c ->
  (forall i o s, 0 <= i -> objects c !! Z.to_nat i = Some o ->
     body i s = Ok (h s o)) ->
  for_loop (Z.to_nat (cl_size c)) 0 body s = Ok (foldl h s (objects c)).
Proof.
  intros Hw Hbody. pose proof (objects_length c Hw) as Hlen.
  destruct (for_loop_inv
    (fun i t => t = foldl h s (take (Z.to_nat i) (objects c)))
    (Z.to_nat (cl_size c)) 0 body s) as (t & Hloop & Ht).
  - done.
  - intros i t Hi ->.
    destruct (objects_lookup c i Hw) as (o & _ & Ho); [lia|].
    exists (h (foldl h s (take (Z.to_nat i) (objects c))) o).
    split; [by apply Hbody; [lia|]|].
    replace (Z.to_nat (i + 1)) with (S (Z.to_nat i)) by lia.
    by rewrite (take_S_r _ _ o), foldl_snoc.
  - rewrite Hloop, Ht. by rewrite take_ge by lia.
Qed.

Lemma foldl_pair_distances {St : Type} (g : St -> float -> St)
  (l1 l2 : list obj_t) (s : St) :
  foldl (fun s o1 => foldl (fun s o2 => g s (obj_distance o1 o2)) s l2) s l1
  = foldl g s (pair_distances l1 l2).
Proof.
  unfold pair_distances. revert s.
  induction l1 as [|o1 l1 IH]; intros s; [done|].
  rewrite bind_cons, foldl_app. simpl. rewrite IH. f_equal.
  clear. revert s. induction l2 as [|o2 l2 IH]; intros s; [done|].
  simpl. by rewrite IH.
Qed.

Lemma scan_objects_pairs {St : Type} (c1 c2 : cluster_t)
  (g : St -> float -> St) (s : St) :
  cluster_wf c1 -> cluster_wf c2 ->
  scan_objects c1 c2 (fun o1 o2 s => g s (obj_distance o1 o2)) s
  = Ok (foldl g s (pair_distances (objects c1) (objects c2))).
Proof.
  intros Hw1 Hw2. unfold scan_objects. rewrite <- foldl_pair_distances.
  apply (for_loop_objects c1 _
           (fun s o1 => foldl (fun s o2 => g s (obj_distance o1 o2)) s
                          (objects c2))); [done|].
  intros i o1 t Hi Ho1.
  apply (for_loop_objects c2 _ (fun s o2 => g s (obj_distance o1 o2)));
    [done|].
  intros j o2 u Hj Ho2.
  by rewrite (objects_load c1 i o1), (objects_load c2 j o2).
Qed.

Lemma foldl_sum_count (ds : list float) (a : float) (n : Z) :
  foldl (fun s d => let '(object_distance, object_count) := s in
           (F32.add object_distance d, object_count + 1)) (a, n) ds
  = (foldl F32.add a ds, n + Z.of_nat (length ds)).
Proof.
  revert a n. induction ds as [|d ds IH]; intros a n; simpl.
  - f_equal. lia.
  - rewrite IH. f_equal. lia.
Qed.

Lemma pair_distances_head (l1 l2 : list obj_t) (o1 o2 : obj_t) :
  l1 !! 0%nat = Some o1 -> l2 !! 0%nat = Some o2 ->
  head (pair_distances l1 l2) = Some (obj_distance o1 o2).
Proof.
  destruct l1 as [|a l1], l2 as [|b l2]; try done.
  by intros [= ->] [= ->].
Qed.

Lemma cluster_distance_linkage (m : Z) (c1 c2 : cluster_t) :
  is_method m -> cluster_wf c1 -> cluster_wf c2 ->
  0 < cl_size c1 -> 0 < cl_size c2 ->
  cluster_distance m c1 c2 = Ok (linkage m (objects c1) (objects c2)).
Proof.
  intros Hm Hw1 Hw2 Hs1 Hs2. unfold cluster_distance.
  rewrite !assert_true by (by apply Z.ltb_lt).
  repeat (rewrite bind_ok; cbv beta).
  destruct (objects_lookup c1 0 Hw1) as (o1 & Hl1 & Ho1); [lia|].
  destruct (objects_lookup c2 0 Hw2) as (o2 & Hl2 & Ho2); [lia|].
  pose proof (pair_distances_head _ _ _ _ Ho1 Ho2) as Hhd.
  unfold linkage. destruct Hm as [->|[->| ->]]; simpl.
  - rewrite (scan_objects_pairs c1 c2
      (fun s d => let '(object_distance, object_count) := s in
         (F32.add object_distance d, object_count + 1))) by done.
    simpl. rewrite foldl_sum_count. simpl. done.
  - rewrite Hl1, Hl2. simpl.
    rewrite (scan_objects_pairs c1 c2
      (fun distance new_distance =>
         if F32.gt distance new_distance then new_distance else distance))
      by done.
    simpl. by rewrite Hhd.
  - rewrite Hl1, Hl2. simpl.
    rewrite (scan_objects_pairs c1 c2
      (fun distance new_distance =>
         if F32.lt distance new_distance then new_distance else distance))
      by done.
    simpl. by rewrite Hhd.
Qed.

(** ** Properties of the linkage values *)

Lemma pair_distances_distance (l1 l2 : list obj_t) :
  Forall obj_valid l1 -> Forall obj_valid l2 ->
  Forall (fun d => F32.is_distance d = true) (pair_distances l1 l2).
Proof.
  intros H1 H2. unfold pair_distances. apply Forall_bind.
  eapply Forall_impl; [exact H1|]. intros o1 Ho1. apply Forall_fmap.
  eapply Forall_impl; [exact H2|]. intros o2 Ho2.
  by apply obj_distance_distance.
Qed.

Lemma pair_distances_length (l1 l2 : list obj_t) :
  length (pair_distances l1 l2) = (length l1 * length l2)%nat.
Proof.
  unfold pair_distances. induction l1 as [|o1 l1 IH]; [done|].
  rewrite bind_cons, length_app, length_fmap, IH. simpl. lia.
Qed.

Lemma pair_distances_elem (l1 l2 : list obj_t) (d : float) :
  d ∈ pair_distances l1 l2 <->
  exists o1 o2, o1 ∈ l1 /\ o2 ∈ l2 /\ d = obj_distance o1 o2.
Proof.
  unfold pair_distances. rewrite list_elem_of_bind. split.
  - intros (o1 & Hd & Ho1). apply list_elem_of_fmap in Hd as (o2 & -> & Ho2).
    by exists o1, o2.
  - intros (o1 & o2 & Ho1 & Ho2 & ->). exists o1. split; [|done].
    by apply list_elem_of_fmap_2.
Qed.

Lemma pair_distances_swap (l1 l2 : list obj_t) (d : float) :
  d ∈ pair_distances l1 l2 -> d ∈ pair_distances l2 l1.
Proof.
  rewrite !pair_distances_elem. intros (o1 & o2 & H1 & H2 & ->).
  exists o2, o1. by rewrite obj_distance_sym.
Qed.

Lemma sum_distances_distance (ds : list float) :
  Forall (fun d => F32.is_distance d = true) ds ->
  F32.is_distance (sum_distances ds) = true.
Proof.
  unfold sum_distances. generalize (F32.of_int 0) (eq_refl : F32.is_distance (F32.of_int 0) = true).
  intros a Ha Hds. revert a Ha.
  induction Hds as [|d ds Hd Hds IH]; intros a Ha; simpl; [done|].
  apply IH. by apply add_distance.
Qed.

Lemma min_distance_spec (d0 : float) (ds : list float) :
  F32.is_distance d0 = true ->
  Forall (fun d => F32.is_distance d = true) ds ->
  let r := min_distance d0 ds in
  F32.is_distance r = true /\ (r = d0 \/ r ∈ ds) /\
  F32.le r d0 = true /\ Forall (fun d => F32.le r d = true) ds.
Proof.
  intros H0 Hds. revert d0 H0. unfold min_distance.
  induction Hds as [|d ds Hd Hds IH]; intros d0 H0; simpl.
  - split; [done|]. split; [by left|]. split; [by apply le_refl|done].
  - destruct (F32.gt d0 d) eqn:Hgt.
    + destruct (IH d Hd) as (Hr & Hin & Hle & Hall).
      split; [done|]. split.
      { right. destruct Hin as [->|Hin]; [left|by right]. }
      pose proof (gt_true_le _ _ H0 Hd Hgt) as Hdd0.
      split; [by apply (le_trans _ d)|]. by constructor.
    + destruct (IH d0 H0) as (Hr & Hin & Hle & Hall).
      split; [done|]. split.
      { destruct Hin as [->|Hin]; [by left|right; by right]. }
      split; [done|]. constructor; [|done].
      apply (le_trans _ d0); try done. by apply gt_false_le.
Qed.

Lemma max_distance_spec (d0 : float) (ds : list float) :
  F32.is_distance d0 = true ->
  Forall (fun d => F32.is_distance d = true) ds ->
  let r := max_distance d0 ds in
  F32.is_distance r = true /\ (r = d0 \/ r ∈ ds) /\
  F32.le d0 r = true /\ Forall (fun d => F32.le d r = true) ds.
Proof.
  intros H0 Hds. revert d0 H0. unfold max_distance.
  induction Hds as [|d ds Hd Hds IH]; intros d0 H0; simpl.
  - split; [done|]. split; [by left|]. split; [by apply le_refl|done].
  - destruct (F32.lt d0 d) eqn:Hlt.
    + destruct (IH d Hd) as (Hr & Hin & Hle & Hall).
      split; [done|]. split.
      { right. destruct Hin as [->|Hin]; [left|by right]. }
      pose proof (gt_true_le d d0 Hd H0 Hlt) as Hd0d.
      split; [by apply (le_trans _ d)|]. by constructor.
    + destruct (IH d0 H0) as (Hr & Hin & Hle & Hall).
      split; [done|]. split.
      { destruct Hin as [->|Hin]; [by left|right; by right]. }
      split; [done|]. constructor; [|done].
      apply (le_trans _ d0); try done. by apply (gt_false_le d d0).
Qed.

Lemma pair_distances_cons (o1 o2 : obj_t) (l1 l2 : list obj_t) :
  pair_distances (o1 :: l1) (o2 :: l2) =
  obj_distance o1 o2 :: (obj_distance o1 <$> l2) ++ pair_distances l1 (o2 :: l2).
Proof. unfold pair_distances. by rewrite bind_cons. Qed.

Lemma pair_distances_nil_r (l : list obj_t) : pair_distances l [] = [].
Proof. unfold pair_distances. by induction l. Qed.

Lemma linkage_distance (m : Z) (l1 l2 : list obj_t) :
  is_method m -> Forall obj_valid l1 -> Forall obj_valid l2 ->
  (0 < length l1)%nat -> (0 < length l2)%nat ->
  Z.of_nat (length l1) * Z.of_nat (length l2) <= INT_MAX ->
  F32.is_distance (linkage m l1 l2) = true.
Proof.
  intros Hm H1 H2 Hn1 Hn2 Hmax.
  pose proof (pair_distances_distance l1 l2 H1 H2) as Hds.
  pose proof (pair_distances_length l1 l2) as Hlen.
  unfold linkage.
  destruct (pair_distances l1 l2) as [|d0 ds] eqn:Hpd.
  { simpl in Hlen. nia. }
  apply Forall_cons in Hds as Hds'. destruct Hds' as [Hd0 Hds'].
  destruct Hm as [->|[->| ->]]; simpl head; simpl default.
  - change (0 =? 0) with true. cbv iota.
    apply div_count_distance; [by apply sum_distances_distance|].
    rewrite Hlen. nia.
  - change (1 =? 0) with false. change (1 =? 1) with true. cbv iota.
    by apply min_distance_spec.
  - change (2 =? 0) with false. change (2 =? 1) with false. cbv iota.
    by apply max_distance_spec.
Qed.

(** The nearest-neighbour and the farthest-neighbour distance do not
    depend on the order of the two clusters. *)
Lemma linkage_min_sym (l1 l2 : list obj_t) :
  Forall obj_valid l1 -> Forall obj_valid l2 ->
  linkage MIN l1 l2 = linkage MIN l2 l1.
Proof.
  intros H1 H2. unfold linkage, MIN.
  change (1 =? 0) with false. change (1 =? 1) with true. cbv iota.
  destruct l1 as [|o1 l1], l2 as [|o2 l2]; try done.
  { by rewrite pair_distances_nil_r. }
  { by rewrite pair_distances_nil_r. }
  pose proof (pair_distances_distance _ _ H1 H2) as Hd12.
  pose proof (pair_distances_distance _ _ H2 H1) as Hd21.
  assert (forall d, d ∈ pair_distances (o1 :: l1) (o2 :: l2) <->
                    d ∈ pair_distances (o2 :: l2) (o1 :: l1)) as Hswap.
  { intros d. split; apply pair_distances_swap. }
  rewrite !pair_distances_cons in *. simpl head. simpl default.
  rewrite (obj_distance_sym o2 o1) in *.
  set (d0 := obj_distance o1 o2) in *.
  match goal with |- min_distance d0 ?a = min_distance d0 ?b =>
    set (ds12 := a) in *; set (ds21 := b) in * end.
  assert (F32.is_distance d0 = true) as Hd0 by by inversion Hd12.
  destruct (min_distance_spec d0 ds12 Hd0 Hd12) as (Hr1 & Hin1 & Hle1 & Hall1).
  destruct (min_distance_spec d0 ds21 Hd0 Hd21) as (Hr2 & Hin2 & Hle2 & Hall2).
  rewrite Forall_forall in Hall1, Hall2.
  apply le_antisym; [done..| |].
  - destruct Hin2 as [->|Hin2]; [done|]. apply Hall1. by apply Hswap.
  - destruct Hin1 as [->|Hin1]; [done|]. apply Hall2. by apply Hswap.
Qed.

Lemma linkage_max_sym (l1 l2 : list obj_t) :
  Forall obj_valid l1 -> Forall obj_valid l2 ->
  linkage MAX l1 l2 = linkage MAX l2 l1.
Proof.
  intros H1 H2. unfold linkage, MAX.
  change (2 =? 0) with false. change (2 =? 1) with false. cbv iota.
  destruct l1 as [|o1 l1], l2 as [|o2 l2]; try done.
  { by rewrite pair_distances_nil_r. }
  { by rewrite pair_distances_nil_r. }
  pose proof (pair_distances_distance _ _ H1 H2) as Hd12.
  pose proof (pair_distances_distance _ _ H2 H1) as Hd21.
  assert (forall d, d ∈ pair_distances (o1 :: l1) (o2 :: l2) <->
                    d ∈ pair_distances (o2 :: l2) (o1 :: l1)) as Hswap.
  { intros d. split; apply pair_distances_swap. }
  rewrite !pair_distances_cons in *. simpl head. simpl default.
  rewrite (obj_distance_sym o2 o1) in *.
  set (d0 := obj_distance o1 o2) in *.
  match goal with |- max_distance d0 ?a = max_distance d0 ?b =>
    set (ds12 := a) in *; set (ds21 := b) in * end.
  assert (F32.is_distance d0 = true) as Hd0 by by inversion Hd12.
  destruct (max_distance_spec d0 ds12 Hd0 Hd12) as (Hr1 & Hin1 & Hle1 & Hall1).
  destruct (max_distance_spec d0 ds21 Hd0 Hd21) as (Hr2 & Hin2 & Hle2 & Hall2).
  rewrite Forall_forall in Hall1, Hall2.
  apply le_antisym; [done..| |].
  - destruct Hin1 as [->|Hin1]; [done|]. apply Hall2. by apply Hswap.
  - destruct Hin2 as [->|Hin2]; [done|]. apply Hall1. by apply Hswap.
Qed.

(** With a cluster of one object both orders visit the same pairs in the
    same order, whatever the method. *)
Lemma pair_distances_singleton (o : obj_t) (l : list obj_t) :
  pair_distances [o] l = pair_distances l [o].
Proof.
  unfold pair_distances. simpl. rewrite app_nil_r.
  induction l as [|a l IH]; [done|].
  rewrite bind_cons, fmap_cons, IH. simpl. by rewrite obj_distance_sym.
Qed.

Lemma linkage_singleton_sym (m : Z) (o : obj_t) (l : list obj_t) :
  linkage m [o] l = linkage m l [o].
Proof. unfold linkage. by rewrite pair_distances_singleton. Qed.

Lemma linkage_min_le_max (l1 l2 : list obj_t) :
  Forall obj_valid l1 -> Forall obj_valid l2 ->
  (0 < length l1)%nat -> (0 < length l2)%nat ->
  F32.le (linkage MIN l1 l2) (linkage MAX l1 l2) = true.
Proof.
  intros H1 H2 Hn1 Hn2.
  pose proof (pair_distances_distance l1 l2 H1 H2) as Hds.
  unfold linkage, MIN, MAX.
  change (1 =? 0) with false. change (1 =? 1) with true.
  change (2 =? 0) with false. change (2 =? 1) with false. cbv iota.
  destruct l1 as [|o1 l1], l2 as [|o2 l2]; simpl in Hn1, Hn2; try lia.
  rewrite pair_distances_cons in *. simpl head. simpl default.
  set (d0 := obj_distance o1 o2) in *.
  assert (F32.is_distance d0 = true) as Hd0 by by inversion Hds.
  match goal with |- F32.le (min_distance d0 ?a) _ = true =>
    set (ds := a) in * end.
  destruct (min_distance_spec d0 ds Hd0 Hds) as (Hr1 & _ & Hle1 & _).
  destruct (max_distance_spec d0 ds Hd0 Hds) as (Hr2 & _ & Hle2 & _).
  by apply (le_trans _ d0).
Qed.

(** ** The nearest pair *)

Section nearest_scan.

Variable D : Z -> Z -> float.
Variable narr : Z.
Hypothesis narr_ge_2 : 2 <= narr.
Hypothesis D_distance :
  forall p q, (0 <= p < q /\ q < narr) -> F32.is_distance (D p q) = true.

Lemma scan_step_inv (i j : Z) (st : float * option Z * option Z) :
  0 <= i < j -> j < narr -> scan_inv D narr i j st ->
  exists st', scan_step D i j st = Ok st' /\ scan_inv D narr i (j + 1) st'.
Proof.
  intros Hij Hj. destruct st as [[d c1] c2]. intros (Hd & Hmin & Hlast).
  assert (F32.is_distance (D i j) = true) as Hnew by (apply D_distance; lia).
  unfold scan_step, F32.ge. fold (F32.le (D i j) d).
  destruct (F32.le (D i j) d) eqn:Hle.
  - eexists. split; [reflexivity|]. split; [done|]. split.
    + intros p q Hpq Hb.
      destruct (decide (p = i /\ q = j)) as [[-> ->]|Hne].
      * by apply le_refl.
      * apply (le_trans _ d); [done|done|apply D_distance; lia|done|].
        apply Hmin; [done|]. unfold scanned_before in *. lia.
    + right. exists i, j. repeat split; try lia.
      * unfold scanned_before. lia.
      * intros p q Hpq Hb Ha. unfold scanned_before in *. lia.
  - destruct (le_total _ _ Hnew Hd Hle) as [Hle' Hne].
    eexists. split; [reflexivity|]. split; [done|]. split.
    + intros p q Hpq Hb.
      destruct (decide (p = i /\ q = j)) as [[-> ->]|Hne'].
      * done.
      * apply Hmin; [done|]. unfold scanned_before in *. lia.
    + destruct Hlast as [(-> & Hj1 & ->)|(a & b & -> & -> & Hab & Hb & -> & Hl)].
      * assert (j = 1) as -> by lia. by rewrite le_refl in Hle.
      * right. exists a, b. repeat split; try lia.
        { unfold scanned_before in *. lia. }
        intros p q Hpq Hb' Ha.
        destruct (decide (p = i /\ q = j)) as [[-> ->]|Hne'].
        -- done.
        -- apply Hl; [done| |done]. unfold scanned_before in *. lia.
Qed.

Lemma scan_inv_next_row (i : Z) (st : float * option Z * option Z) :
  0 <= i -> scan_inv D narr i narr st ->
  scan_inv D narr (i + 1) (i + 1 + 1) st.
Proof.
  intros Hi. destruct st as [[d c1] c2]. intros (Hd & Hmin & Hlast).
  split; [done|]. split.
  - intros p q Hpq Hb. apply Hmin; [done|].
    unfold scanned_before in *. lia.
  - destruct Hlast as [(-> & Hj1 & ->)|(a & b & -> & -> & Hab & Hb & -> & Hl)].
    + lia.
    + right. exists a, b. repeat split; try lia.
      { unfold scanned_before in *. lia. }
      intros p q Hpq Hb' Ha. apply Hl; [done| |done].
      unfold scanned_before in *. lia.
Qed.

Lemma scan_nearest (c1 c2 : option Z) :
  exists i j,
    for_loop (Z.to_nat narr) 0
      (fun i st =>
         for_loop (Z.to_nat (narr - (i + 1))) (i + 1) (scan_step D i) st)
      (D 0 1, c1, c2) = Ok (D i j, Some i, Some j) /\
    (0 <= i < j /\ j < narr) /\
    forall p q, (0 <= p < q /\ q < narr) ->
      F32.le (D i j) (D p q) = true /\
      (D p q = D i j -> ~ scanned_before i j p q).
Proof.
  destruct (for_loop_inv (fun i st => scan_inv D narr i (i + 1) st)
    (Z.to_nat narr) 0
    (fun i st =>
       for_loop (Z.to_nat (narr - (i + 1))) (i + 1) (scan_step D i) st)
    (D 0 1, c1, c2)) as ([[d r1] r2] & Hloop & Hd & Hmin & Hlast).
  - split; [apply D_distance; lia|]. split.
    + intros p q Hpq Hb. unfold scanned_before in Hb. exfalso. lia.
    + left. split; [done|]. split; [lia|done].
  - intros i st Hi Hinv.
    destruct (for_loop_inv (fun j st => scan_inv D narr i j st)
      (Z.to_nat (narr - (i + 1))) (i + 1) (scan_step D i) st)
      as (st' & Hin & Hinv'); [done| |].
    + intros j t Hj Ht. apply scan_step_inv; [lia|lia|done].
    + exists st'. split; [done|]. apply scan_inv_next_row; [lia|].
      by replace (i + 1 + Z.of_nat (Z.to_nat (narr - (i + 1)))) with narr
        in Hinv' by lia.
  - destruct Hlast as [(Hn & _)|(a & b & -> & -> & Hab & Hb & -> & Hl)];
      [lia|].
    exists a, b. split; [done|]. split; [done|].
    intros p q Hpq. split.
    + apply Hmin; [done|]. unfold scanned_before. lia.
    + intros Heq Hafter. apply (Hl p q); [done| |done|done].
      unfold scanned_before. lia.
Qed.

End nearest_scan.

Lemma collection_ok_lookup (carr : list cluster_t) (n p : Z) :
  collection_ok carr n -> 0 <= p < n ->
  exists c, carr !! Z.to_nat p = Some c /\ cluster_ok c /\
            load carr p = Ok c /\ cluster_at carr p = c.
Proof.
  intros (Hn & Hall & _) Hp.
  destruct (lookup_lt_is_Some_2 carr (Z.to_nat p)) as [c Hc]; [lia|].
  exists c. split; [done|]. split.
  - rewrite Forall_forall in Hall. apply Hall.
    apply list_elem_of_lookup. exists (Z.to_nat p).
    rewrite lookup_take_lt by lia. done.
  - split; [apply load_lookup; [lia|done]|]. unfold cluster_at. by rewrite Hc.
Qed.

Lemma sum_ge_elem (l : list Z) (p : nat) (x : Z) :
  Forall (fun z => 0 <= z) l -> l !! p = Some x -> x <= foldr Z.add 0 l.
Proof.
  intros Hl. revert p. induction Hl as [|a l Ha Hl IH]; intros p Hp; [done|].
  destruct p as [|p]; simpl in *.
  - injection Hp as ->.
    assert (0 <= foldr Z.add 0 l); [|lia].
    clear -Hl. induction Hl; simpl; lia.
  - specialize (IH p Hp). lia.
Qed.

Lemma sum_ge_pair (l : list Z) (p q : nat) (x y : Z) :
  Forall (fun z => 0 <= z) l -> (p < q)%nat ->
  l !! p = Some x -> l !! q = Some y -> x + y <= foldr Z.add 0 l.
Proof.
  intros Hl. revert p q.
  induction Hl as [|a l Ha Hl IH]; intros p q Hpq Hp Hq; [done|].
  destruct q as [|q]; [lia|]. destruct p as [|p]; simpl in *.
  - injection Hp as ->. pose proof (sum_ge_elem l q y Hl Hq). lia.
  - assert (x + y <= foldr Z.add 0 l) by (apply (IH p q); [lia|done..]).
    lia.
Qed.

Lemma total_size_pair (carr : list cluster_t) (n p q : Z)
  (cp cq : cluster_t) :
  collection_ok carr n -> 0 <= p < q -> q < n ->
  carr !! Z.to_nat p = Some cp -> carr !! Z.to_nat q = Some cq ->
  cl_size cp * cl_size cq <= INT_MAX.
Proof.
  intros (Hn & Hall & Hmax) Hpq Hq Hcp Hcq.
  assert (Forall (fun z => 0 <= z) (cl_size <$> take (Z.to_nat n) carr))
    as Hpos.
  { apply Forall_fmap. eapply Forall_impl; [exact Hall|].
    intros c (_ & Hc & _). simpl. lia. }
  pose proof (sum_ge_pair _ (Z.to_nat p) (Z.to_nat q) (cl_size cp)
                (cl_size cq) Hpos) as Hsum.
  fold (total_size carr n) in Hsum.
  assert (cl_size cp + cl_size cq <= total_size carr n) as Hle.
  { apply Hsum; [lia| |].
    - by rewrite list_lookup_fmap, lookup_take_lt, Hcp by lia.
    - by rewrite list_lookup_fmap, lookup_take_lt, Hcq by lia. }
  rewrite Forall_forall in Hpos.
  assert (0 <= cl_size cp).
  { apply Hpos, list_elem_of_lookup. exists (Z.to_nat p).
    by rewrite list_lookup_fmap, lookup_take_lt, Hcp by lia. }
  assert (0 <= cl_size cq).
  { apply Hpos, list_elem_of_lookup. exists (Z.to_nat q).
    by rewrite list_lookup_fmap, lookup_take_lt, Hcq by lia. }
  nia.
Qed.

Lemma pair_distance_table (m : Z) (carr : list cluster_t) (n p q : Z) :
  is_method m -> collection_ok carr n -> 0 <= p < n -> 0 <= q < n ->
  pair_distance m carr p q = Ok (distance_table m carr p q).
Proof.
  intros Hm Hok Hp Hq.
  destruct (collection_ok_lookup carr n p Hok Hp)
    as (cp & _ & (Hwp & Hsp & _) & Hlp & Hatp).
  destruct (collection_ok_lookup carr n q Hok Hq)
    as (cq & _ & (Hwq & Hsq & _) & Hlq & Hatq).
  unfold pair_distance, distance_table. rewrite Hlp, Hlq, Hatp, Hatq. simpl.
  by apply cluster_distance_linkage.
Qed.

Lemma distance_table_distance (m : Z) (carr : list cluster_t) (n p q : Z) :
  is_method m -> collection_ok carr n -> 0 <= p < q -> q < n ->
  F32.is_distance (distance_table m carr p q) = true.
Proof.
  intros Hm Hok Hpq Hq.
  destruct (collection_ok_lookup carr n p Hok)
    as (cp & Hcp & (Hwp & Hsp & Hvp) & _ & Hatp); [lia|].
  destruct (collection_ok_lookup carr n q Hok)
    as (cq & Hcq & (Hwq & Hsq & Hvq) & _ & Hatq); [lia|].
  unfold distance_table. rewrite Hatp, Hatq.
  pose proof (objects_length cp Hwp). pose proof (objects_length cq Hwq).
  apply linkage_distance; [done..|lia|lia|].
  replace (Z.of_nat (length (objects cp))) with (cl_size cp) by lia.
  replace (Z.of_nat (length (objects cq))) with (cl_size cq) by lia.
  by apply (total_size_pair carr n p q).
Qed.

Lemma find_neighbours_scan (m : Z) (carr : list cluster_t) (narr : Z)
  (c1 c2 : option Z) :
  is_method m -> collection_ok carr narr -> 2 <= narr ->
  find_neighbours m carr narr c1 c2 =
  '(_, c1, c2) ←
     for_loop (Z.to_nat narr) 0
       (fun i st =>
          for_loop (Z.to_nat (narr - (i + 1))) (i + 1)
            (scan_step (distance_table m carr) i) st)
       (distance_table m carr 0 1, c1, c2);
  Ok (c1, c2).
Proof.
  intros Hm Hok Hn. unfold find_neighbours.
  rewrite assert_true by (apply Z.ltb_lt; lia).
  rewrite bind_ok. cbv beta.
  pose proof (pair_distance_table m carr narr 0 1 Hm Hok) as H01.
  unfold pair_distance in H01.
  destruct (collection_ok_lookup carr narr 0 Hok) as (a & _ & _ & Ha & _);
    [lia|].
  destruct (collection_ok_lookup carr narr 1 Hok) as (b & _ & _ & Hb & _);
    [lia|].
  rewrite Ha, Hb in H01 |- *. simpl in H01 |- *. rewrite H01 by lia. simpl.
  f_equal. apply for_loop_ext. intros i st Hi.
  apply for_loop_ext. intros j [[d r1] r2] Hj.
  pose proof (pair_distance_table m carr narr i j Hm Hok) as Hij.
  unfold pair_distance in Hij.
  destruct (collection_ok_lookup carr narr i Hok) as (a' & _ & _ & Ha' & _);
    [lia|].
  destruct (collection_ok_lookup carr narr j Hok) as (b' & _ & _ & Hb' & _);
    [lia|].
  rewrite Ha', Hb' in Hij |- *. simpl in Hij |- *. rewrite Hij by lia.
  simpl. by destruct (F32.ge d _).
Qed.

(** ** Conservation of the points *)

Lemma concat_pointwise_perm {A} (L1 L2 : list (list A)) :
  Forall2 (≡ₚ) L1 L2 -> concat L1 ≡ₚ concat L2.
Proof.
  induction 1 as [|l1 l2 L1 L2 Hl HL IH]; simpl; [done|].
  by rewrite Hl, IH.
Qed.

Lemma concat_lookup_split {A} (L : list (list A)) (i : nat) (l : list A) :
  L !! i = Some l ->
  concat L = concat (take i L) ++ l ++ concat (drop (S i) L).
Proof.
  intros Hl. rewrite <- (take_drop_middle L i l Hl) at 1.
  by rewrite concat_app, concat_cons.
Qed.

Lemma concat_delete {A} (L : list (list A)) (j : nat) (l : list A) :
  L !! j = Some l -> concat L ≡ₚ l ++ concat (delete j L).
Proof.
  intros Hl. rewrite (concat_lookup_split L j l Hl), delete_take_drop.
  rewrite concat_app. by rewrite Permutation_app_swap_app.
Qed.

Lemma concat_insert_app {A} (L : list (list A)) (i : nat) (l k : list A) :
  L !! i = Some l -> concat (<[i := l ++ k]> L) ≡ₚ k ++ concat L.
Proof.
  intros Hl. pose proof (lookup_lt_Some _ _ _ Hl) as Hi.
  rewrite (concat_lookup_split L i l Hl).
  rewrite (concat_lookup_split (<[i := l ++ k]> L) i (l ++ k))
    by (by apply list_lookup_insert_eq).
  rewrite take_insert_ge, drop_insert_lt by lia.
  rewrite <- !app_assoc.
  rewrite (Permutation_app_swap_app k), (Permutation_app_swap_app k).
  by do 2 f_equiv.
Qed.

(** Folding cluster [j] into cluster [i] and dropping slot [j] keeps the
    points of the collection. *)
Lemma concat_merge_delete {A} (L : list (list A)) (i j : nat)
  (li lj : list A) :
  (i < j)%nat -> L !! i = Some li -> L !! j = Some lj ->
  concat (delete j (<[i := li ++ lj]> L)) ≡ₚ concat L.
Proof.
  intros Hij Hi Hj.
  assert (<[i := li ++ lj]> L !! j = Some lj) as Hj'
    by (by rewrite list_lookup_insert_ne by lia).
  pose proof (concat_delete _ _ _ Hj') as Hd.
  rewrite (concat_insert_app L i li lj Hi) in Hd.
  by apply Permutation_app_inv_l in Hd.
Qed.

Lemma total_size_length (l : list cluster_t) :
  Forall cluster_wf l ->
  foldr Z.add 0 (cl_size <$> l) = Z.of_nat (length (concat (objects <$> l))).
Proof.
  induction 1 as [|c l Hc Hl IH]; [done|].
  csimpl. rewrite length_app, IH, <- (objects_length c Hc). lia.
Qed.

Lemma total_size_points (carr : list cluster_t) (n : Z) :
  Forall cluster_ok (take (Z.to_nat n) carr) ->
  total_size carr n = Z.of_nat (length (points carr n)).
Proof.
  intros Hok. apply total_size_length.
  eapply Forall_impl; [exact Hok|]. by intros c (Hw & _).
Qed.

Lemma collection_lookup (carr : list cluster_t) (n : Z) (k : nat) :
  (k < Z.to_nat n)%nat ->
  collection carr n !! k = objects <$> carr !! k.
Proof.
  intros Hk. unfold collection.
  by rewrite list_lookup_fmap, lookup_take_lt by lia.
Qed.

Lemma collection_length (carr : list cluster_t) (n : Z) :
  0 <= n <= Z.of_nat (length carr) ->
  length (collection carr n) = Z.to_nat n.
Proof.
  intros Hn. unfold collection. rewrite length_fmap, length_take. lia.
Qed.

(** ** One iteration of the clustering loop *)

Lemma cluster_ok_perm (c c' : cluster_t) :
  cluster_ok c -> cluster_wf c' -> objects c' ≡ₚ objects c ->
  cluster_ok c'.
Proof.
  intros (Hw & Hs & Hv) Hw' Hp. split; [done|]. split.
  - rewrite <- (objects_length c' Hw'), Hp, (objects_length c Hw). done.
  - by rewrite Hp.
Qed.

Lemma loop_body_ok (m : Z) (al : allocator) (clusters : list cluster_t)
  (size : Z) (c1 c2 : option Z) :
  is_method m -> total_allocator al ->
  collection_ok clusters size -> 2 <= size ->
  exists clusters' i j,
    loop_body m al (clusters, size, c1, c2)
      = Ok (clusters', size - 1, Some i, Some j) /\
    collection_ok clusters' (size - 1) /\
    points clusters' (size - 1) ≡ₚ points clusters size /\
    length clusters' = length clusters.
Proof.
  intros Hm Hal Hok Hsize. unfold loop_body.
  rewrite find_neighbours_scan by done.
  destruct (scan_nearest (distance_table m clusters) size Hsize
              (fun p q Hpq => distance_table_distance m clusters size p q Hm
                                Hok (proj1 Hpq) (proj2 Hpq)) c1 c2)
    as (i & j & Hscan & (Hij & Hj) & _).
  rewrite Hscan. simpl.
  destruct (collection_ok_lookup clusters size i Hok)
    as (a & Ha & Hoka & Hla & _); [lia|].
  destruct (collection_ok_lookup clusters size j Hok)
    as (b & Hb & Hokb & Hlb & _); [lia|].
  rewrite Hla, Hlb. simpl.
  destruct (Z.eqb_spec i j) as [?|_]; [lia|].
  destruct (merge_clusters_ok al a b Hal (proj1 Hoka) (proj1 Hokb))
    as (a' & Hmerge & Hwa' & Hobja' & Hsza').
  rewrite Hmerge. simpl.
  pose proof Hok as (Hn & Hall & Hmax).
  rewrite store_in_range by lia. simpl.
  destruct (remove_cluster_ok al (<[Z.to_nat i := a']> clusters) size j Hal)
    as (clusters2 & Hrem & Hlen2 & Hsame & Hshift & Hlast).
  { lia. }
  { rewrite length_insert. lia. }
  { intros k c Hk Hc. rewrite list_lookup_insert_ne in Hc by lia.
    assert (cluster_ok c) as (Hw & _); [|done].
    apply (Forall_lookup_1 _ _ k c Hall). by rewrite lookup_take_lt by lia. }
  rewrite Hrem. simpl. exists clusters2, i, j. split; [done|].
  rewrite length_insert in Hlen2.
  assert (cluster_ok a') as Hoka'.
  { destruct Hoka as (Hwa & Hsa & Hva). destruct Hokb as (Hwb & Hsb & Hvb).
    split; [done|]. split; [lia|].
    rewrite Hobja', qsort_perm. by apply Forall_app. }
  assert (forall (k : nat) (c : cluster_t),
            (Z.to_nat j <= k)%nat -> Z.of_nat k < size - 1 ->
            clusters !! S k = Some c ->
            exists c', clusters2 !! k = Some c' /\ cluster_wf c' /\
                       objects c' = qsort obj_sort_compar (objects c) /\
                       cl_size c' = cl_size c) as Hshift'.
  { intros k c Hk1 Hk2 Hc. apply Hshift; [lia|].
    by rewrite list_lookup_insert_ne by lia. }
  assert (Forall cluster_ok (take (Z.to_nat (size - 1)) clusters2)) as Hall2.
  { apply Forall_lookup_2. intros k c Hc.
    apply lookup_take_Some in Hc as [Hc Hk].
    destruct (decide (k < Z.to_nat j)%nat) as [Hlt|Hge].
    - rewrite Hsame in Hc by lia.
      destruct (decide (k = Z.to_nat i)) as [->|Hne].
      + rewrite list_lookup_insert_eq in Hc by lia. by injection Hc as <-.
      + rewrite list_lookup_insert_ne in Hc by lia.
        apply (Forall_lookup_1 _ _ k c Hall). by rewrite lookup_take_lt by lia.
    - destruct (lookup_lt_is_Some_2 clusters (S k)) as [c0 Hc0]; [lia|].
      destruct (Hshift' k c0) as (c' & Hc' & Hw' & Hobj' & Hsz'); [lia..|done|].
      assert (c' = c) as -> by congruence.
      apply (cluster_ok_perm c0); [|done|by rewrite Hobj', qsort_perm].
      apply (Forall_lookup_1 _ _ (S k) c0 Hall).
      by rewrite lookup_take_lt by lia. }
  assert (points clusters2 (size - 1) ≡ₚ points clusters size) as Hperm.
  { unfold points.
    rewrite <- (concat_merge_delete (collection clusters size)
                  (Z.to_nat i) (Z.to_nat j) (objects a) (objects b));
      [|lia|by rewrite collection_lookup, Ha by lia
           |by rewrite collection_lookup, Hb by lia].
    apply concat_pointwise_perm, Forall2_same_length_lookup_2.
    { rewrite collection_length by lia. rewrite length_delete.
      - rewrite length_insert, collection_length by lia. lia.
      - apply lookup_lt_is_Some_2.
        rewrite length_insert, collection_length by lia. lia. }
    intros k l l' Hl Hl'.
    assert (k < Z.to_nat (size - 1))%nat as Hk.
    { apply lookup_lt_Some in Hl. rewrite collection_length in Hl by lia.
      done. }
    rewrite collection_lookup in Hl by done.
    destruct (decide (k < Z.to_nat j)%nat) as [Hlt|Hge].
    - rewrite list_lookup_delete_lt in Hl' by done.
      rewrite Hsame in Hl by lia.
      destruct (decide (k = Z.to_nat i)) as [->|Hne].
      + rewrite list_lookup_insert_eq in Hl by lia.
        rewrite list_lookup_insert_eq in Hl'
          by (rewrite collection_length by lia; lia).
        injection Hl as <-. injection Hl' as <-.
        by rewrite Hobja', qsort_perm.
      + rewrite list_lookup_insert_ne in Hl by lia.
        rewrite list_lookup_insert_ne in Hl' by lia.
        rewrite collection_lookup in Hl' by lia.
        rewrite Hl in Hl'. by injection Hl' as <-.
    - rewrite list_lookup_delete_ge in Hl' by lia.
      rewrite list_lookup_insert_ne in Hl' by lia.
      rewrite collection_lookup in Hl' by lia.
      destruct (clusters !! S k) as [c0|] eqn:Hc0; [|done].
      destruct (Hshift' k c0) as (c' & Hc' & Hw' & Hobj' & Hsz'); [lia..|done|].
      rewrite Hc' in Hl. injection Hl as <-. injection Hl' as <-.
      by rewrite Hobj', qsort_perm. }
  split; [|by split].
  split; [lia|]. split; [done|].
  rewrite (total_size_points _ _ Hall2), Hperm,
    <- (total_size_points _ _ Hall). done.
Qed.

(** ** The clustering loop *)

Lemma iterate_S {St : Type} (k : nat) (body : St -> result St) (s : St) :
  iterate (S k) body s = body s ≫= iterate k body.
Proof. reflexivity. Qed.

Lemma iterate_loop_body_ok (m : Z) (al : allocator) (k : nat) :
  is_method m -> total_allocator al ->
  forall (clusters : list cluster_t) (size : Z) (c1 c2 : option Z),
  collection_ok clusters size -> 1 <= size - Z.of_nat k ->
  exists clusters' c1' c2',
    iterate k (loop_body m al) (clusters, size, c1, c2)
      = Ok (clusters', size - Z.of_nat k, c1', c2') /\
    collection_ok clusters' (size - Z.of_nat k) /\
    points clusters' (size - Z.of_nat k) ≡ₚ points clusters size /\
    length clusters' = length clusters.
Proof.
  intros Hm Hal. induction k as [|k IH]; intros clusters size c1 c2 Hok Hk.
  - exists clusters, c1, c2. replace (size - Z.of_nat 0) with size by lia.
    done.
  - destruct (loop_body_ok m al clusters size c1 c2 Hm Hal Hok)
      as (cl1 & i & j & Hbody & Hok1 & Hp1 & Hl1); [lia|].
    destruct (IH cl1 (size - 1) (Some i) (Some j) Hok1)
      as (cl2 & c1' & c2' & Hit & Hok2 & Hp2 & Hl2); [lia|].
    replace (size - 1 - Z.of_nat k) with (size - Z.of_nat (S k)) in * by lia.
    exists cl2, c1', c2'. rewrite iterate_S, Hbody, bind_ok.
    split; [done|]. split; [done|]. split; [by rewrite Hp2|congruence].
Qed.

Lemma while_loop_iterate {St : Type} (cond : St -> bool)
  (body : St -> result St) (k : nat) :
  forall (fuel : nat) (s s' : St),
  iterate k body s = Ok s' -> (k < fuel)%nat -> cond s' = false ->
  (forall (j : nat) (t : St),
     (j < k)%nat -> iterate j body s = Ok t -> cond t = true) ->
  while_loop fuel cond body s = Ok s'.
Proof.
  induction k as [|k IH]; intros fuel s s' Hit Hfuel Hend Hrun.
  - injection Hit as ->. destruct fuel; [lia|]. simpl. by rewrite Hend.
  - destruct fuel as [|fuel]; [lia|]. simpl in *.
    rewrite (Hrun 0%nat s) by (done || lia).
    destruct (body s) as [s1| | |] eqn:Hb; try done. simpl in *.
    apply IH; [done|lia|done|].
    intros j t Hj Ht. apply (Hrun (S j)); [lia|]. simpl. by rewrite Hb.
Qed.

Lemma clusters_with_id_none (id : Z) (L : list (list obj_t)) :
  id ∉ o_id <$> concat L -> clusters_with_id id L = 0%nat.
Proof.
  unfold clusters_with_id. induction L as [|l L IH]; [done|].
  simpl. rewrite fmap_app, elem_of_app. intros Hn.
  rewrite filter_cons. destruct (decide (id ∈ o_id <$> l)); [tauto|].
  apply IH. tauto.
Qed.

Lemma clusters_with_id_one (L : list (list obj_t)) (o : obj_t) :
  NoDup (o_id <$> concat L) -> o ∈ concat L ->
  clusters_with_id (o_id o) L = 1%nat.
Proof.
  unfold clusters_with_id. induction L as [|l L IH]; intros Hnd Ho.
  - by apply elem_of_nil in Ho.
  - simpl in *. rewrite fmap_app in Hnd.
    apply NoDup_app in Hnd as (Hnd1 & Hdisj & Hnd2).
    rewrite filter_cons.
    destruct (decide (o_id o ∈ o_id <$> l)) as [Hin|Hnin].
    + simpl. f_equal. apply clusters_with_id_none. by apply Hdisj.
    + apply IH; [done|]. apply elem_of_app in Ho as [Ho|Ho]; [|done].
      exfalso. apply Hnin. by apply list_elem_of_fmap_2.
Qed.

(** ** Example inputs are well formed *)

Lemma plentiful_total : total_allocator plentiful.
Proof. by intros n. Qed.

Lemma load_line_singleton (al : allocator) (slot : cluster_t) (o : obj_t) :
  total_allocator al -> load_line al slot o = Ok (singleton o).
Proof.
  intros Hal. unfold load_line, init_cluster, append_cluster, resize_cluster.
  simpl. rewrite Hal. reflexivity.
Qed.

Lemma point_valid (id x y : Z) :
  coord_ok (F32.of_int x) = true -> coord_ok (F32.of_int y) = true ->
  obj_valid (point id x y).
Proof. by split. Qed.

Lemma cluster_of_ok (l : list obj_t) :
  l <> [] -> Forall obj_valid l -> cluster_ok (cluster_of l).
Proof.
  intros Hne Hv. unfold cluster_ok, cluster_wf, cluster_of, objects. simpl.
  rewrite Nat2Z.id, firstn_all. destruct l; [done|]. simpl in *.
  repeat split; (done || lia).
Qed.

Lemma example_clusters_ok : collection_ok example_clusters 4.
Proof.
  split; [simpl; lia|]. split; [|by vm_compute].
  repeat constructor; by vm_compute.
Qed.

(** ** The nearest pair (claim C3) *)

(** C3.  On a collection of [narr >= 2] non-empty clusters of valid
    points, for each of the three methods, [find_neighbours] stores
    indices [i < j < narr] whose cluster distance is less than or equal to
    the distance of every pair [p < q < narr]; a pair at exactly the same
    distance is [(i, j)] itself or comes before it in scan order, so the
    last of the tied pairs is the one returned. *)
Theorem find_neighbours_nearest (m : Z) (carr : list cluster_t) (narr : Z)
  (c1 c2 : option Z) :
  is_method m -> collection_ok carr narr -> 2 <= narr ->
  exists i j d,
    find_neighbours m carr narr c1 c2 = Ok (Some i, Some j) /\
    (0 <= i < j /\ j < narr) /\
    pair_distance m carr i j = Ok d /\
    forall p q, 0 <= p < q /\ q < narr ->
      exists d', pair_distance m carr p q = Ok d' /\
                 F32.le d d' = true /\
                 (d' = d -> scanned_before p q i j \/ (p = i /\ q = j)).
Proof.
  intros Hm Hok Hn. rewrite find_neighbours_scan by done.
  destruct (scan_nearest (distance_table m carr) narr Hn
              (fun p q Hpq => distance_table_distance m carr narr p q Hm
                                Hok (proj1 Hpq) (proj2 Hpq)) c1 c2)
    as (i & j & Hscan & Hij & Hmin).
  exists i, j, (distance_table m carr i j). rewrite Hscan.
  split; [done|]. split; [done|].
  split; [apply (pair_distance_table m carr narr); (done || lia)|].
  intros p q Hpq. exists (distance_table m carr p q).
  split; [apply (pair_distance_table m carr narr); (done || lia)|].
  destruct (Hmin p q Hpq) as [Hle Htie]. split; [done|].
  intros Heq. specialize (Htie Heq). unfold scanned_before in *. lia.
Qed.

Lemma find_neighbours_nearest_witness :
  exists i j d,
    find_neighbours AVERAGE example_clusters 4 None None
      = Ok (Some i, Some j) /\
    (0 <= i < j /\ j < 4) /\
    pair_distance AVERAGE example_clusters i j = Ok d /\
    forall p q, 0 <= p < q /\ q < 4 ->
      exists d', pair_distance AVERAGE example_clusters p q = Ok d' /\
                 F32.le d d' = true /\
                 (d' = d -> scanned_before p q i j \/ (p = i /\ q = j)).
Proof.
  apply (find_neighbours_nearest AVERAGE example_clusters 4 None None).
  - left. reflexivity.
  - split; [simpl; lia|]. split; [|by vm_compute].
    repeat constructor; by vm_compute.
  - lia.
Defined.

(** ** Removal and compaction (claim C4) *)

(** C4.  [remove_cluster (carr, narr, idx)] with [idx < narr] returns
    [narr - 1].  In the collection of the first [narr - 1] clusters it
    leaves, the clusters before [idx] are unchanged and each cluster that
    was at an index [k + 1 > idx] is at index [k] with the same objects
    (in the same order when they were ascending by identifier, sorted by
    identifier otherwise): the cluster at [idx] is gone, and the points
    of the other clusters are neither lost nor duplicated. *)
Theorem remove_cluster_compacts (al : allocator) (carr : list cluster_t)
  (narr idx : Z) :
  total_allocator al -> 0 <= idx < narr ->
  narr <= Z.of_nat (length carr) ->
  Forall cluster_wf (take (Z.to_nat narr) carr) ->
  exists carr',
    remove_cluster al carr narr idx = Ok (carr', narr - 1) /\
    length (collection carr' (narr - 1)) = Z.to_nat (narr - 1) /\
    (forall k : nat, (k < Z.to_nat idx)%nat ->
       collection carr' (narr - 1) !! k = collection carr narr !! k) /\
    (forall (k : nat) (l : list obj_t), (Z.to_nat idx <= k)%nat ->
       collection carr narr !! S k = Some l ->
       exists l', collection carr' (narr - 1) !! k = Some l' /\
                  l' ≡ₚ l /\ (ascending l -> l' = l)) /\
    points carr' (narr - 1)
      ≡ₚ concat (delete (Z.to_nat idx) (collection carr narr)).
Proof.
  intros Hal Hidx Hlen Hwf.
  destruct (remove_cluster_ok al carr narr idx Hal Hidx Hlen)
    as (carr' & Hrem & Hlen' & Hsame & Hshift & Hlast).
  { intros k c Hk Hc. apply (Forall_lookup_1 _ _ k c Hwf).
    by rewrite lookup_take_lt by lia. }
  exists carr'. split; [done|].
  assert (length (collection carr' (narr - 1)) = Z.to_nat (narr - 1)) as Hl.
  { apply collection_length. lia. }
  assert (forall k : nat, (k < Z.to_nat idx)%nat ->
            collection carr' (narr - 1) !! k = collection carr narr !! k)
    as Hbefore.
  { intros k Hk. rewrite !collection_lookup by lia. by rewrite Hsame by lia. }
  assert (forall (k : nat) (l : list obj_t), (Z.to_nat idx <= k)%nat ->
            collection carr narr !! S k = Some l ->
            exists l', collection carr' (narr - 1) !! k = Some l' /\
                       l' ≡ₚ l /\ (ascending l -> l' = l)) as Hafter.
  { intros k l Hk Hl0.
    assert (S k < Z.to_nat narr)%nat as Hk'.
    { apply lookup_lt_Some in Hl0.
      rewrite collection_length in Hl0 by lia. done. }
    rewrite collection_lookup in Hl0 by done.
    destruct (carr !! S k) as [c|] eqn:Hc; [|done]. injection Hl0 as <-.
    destruct (Hshift k c) as (c' & Hc' & _ & Hobj & _); [lia|done|].
    exists (objects c'). rewrite collection_lookup, Hc' by lia.
    split; [done|]. rewrite Hobj. split; [apply qsort_perm|].
    apply qsort_ascending_id. }
  split; [done|]. split; [done|]. split; [done|].
  apply concat_pointwise_perm, Forall2_same_length_lookup_2.
  { rewrite Hl, length_delete.
    - rewrite collection_length by lia. lia.
    - apply lookup_lt_is_Some_2. rewrite collection_length by lia. lia. }
  intros k l' l Hl' Hl0.
  destruct (decide (k < Z.to_nat idx)%nat) as [Hlt|Hge].
  - rewrite list_lookup_delete_lt in Hl0 by done.
    rewrite Hbefore in Hl' by done. rewrite Hl' in Hl0.
    by injection Hl0 as <-.
  - rewrite list_lookup_delete_ge in Hl0 by lia.
    destruct (Hafter k l) as (l2 & Hl2 & Hp & _); [lia|done|].
    rewrite Hl' in Hl2. by injection Hl2 as <-.
Qed.

Lemma remove_cluster_compacts_witness :
  exists carr',
    remove_cluster plentiful example_clusters 4 1 = Ok (carr', 4 - 1) /\
    length (collection carr' (4 - 1)) = Z.to_nat (4 - 1) /\
    (forall k : nat, (k < Z.to_nat 1)%nat ->
       collection carr' (4 - 1) !! k = collection example_clusters 4 !! k) /\
    (forall (k : nat) (l : list obj_t), (Z.to_nat 1 <= k)%nat ->
       collection example_clusters 4 !! S k = Some l ->
       exists l', collection carr' (4 - 1) !! k = Some l' /\
                  l' ≡ₚ l /\ (ascending l -> l' = l)) /\
    points carr' (4 - 1)
      ≡ₚ concat (delete (Z.to_nat 1) (collection example_clusters 4)).
Proof.
  apply (remove_cluster_compacts plentiful example_clusters 4 1).
  - intros n. reflexivity.
  - lia.
  - simpl. lia.
  - repeat constructor; by vm_compute.
Defined.

(** ** Symmetry of the cluster distance (claim C5) *)

Lemma objects_singleton (c : cluster_t) :
  cluster_wf c -> cl_size c = 1 -> exists o, objects c = [o].
Proof.
  intros Hw Hs. pose proof (objects_length c Hw) as Hl.
  destruct (objects c) as [|o [|o' l]]; simpl in Hl; try lia. by exists o.
Qed.

(** C5, as the code has it.  For two non-empty clusters of valid points,
    [cluster_distance (a, b)] and [cluster_distance (b, a)] are the same
    value under the nearest-neighbour and the farthest-neighbour method,
    and under the average method when one of the clusters has a single
    object. *)
Theorem cluster_distance_symmetric (m : Z) (a b : cluster_t) :
  is_method m -> cluster_ok a -> cluster_ok b ->
  m = MIN \/ m = MAX \/ cl_size a = 1 \/ cl_size b = 1 ->
  exists d, cluster_distance m a b = Ok d /\ cluster_distance m b a = Ok d.
Proof.
  intros Hm (Hwa & Hsa & Hva) (Hwb & Hsb & Hvb) Hcase.
  rewrite !cluster_distance_linkage by done.
  eexists. split; [reflexivity|]. f_equal.
  destruct Hcase as [->|[->|[H1|H1]]].
  - by apply linkage_min_sym.
  - by apply linkage_max_sym.
  - destruct (objects_singleton a Hwa H1) as [o ->].
    symmetry. apply linkage_singleton_sym.
  - destruct (objects_singleton b Hwb H1) as [o ->].
    apply linkage_singleton_sym.
Qed.

Lemma cluster_distance_symmetric_witness :
  exists d, cluster_distance MIN skew_a skew_b = Ok d /\
            cluster_distance MIN skew_b skew_a = Ok d.
Proof.
  apply (cluster_distance_symmetric MIN skew_a skew_b).
  - right. left. reflexivity.
  - repeat constructor; by vm_compute.
  - repeat constructor; by vm_compute.
  - left. reflexivity.
Defined.

(** The average distance of [skew_a] and [skew_b] adds the same four
    distances in two different orders, and the two sums round
    differently. *)
Lemma cluster_distance_average_asymmetric :
  cluster_ok skew_a /\ cluster_ok skew_b /\
  cluster_distance AVERAGE skew_a skew_b
    = Ok (S754_finite false 11608299 (-21)) /\
  cluster_distance AVERAGE skew_b skew_a
    = Ok (S754_finite false 11608300 (-21)) /\
  cluster_distance AVERAGE skew_a skew_b
    <> cluster_distance AVERAGE skew_b skew_a.
Proof.
  split; [repeat constructor; by vm_compute|].
  split; [repeat constructor; by vm_compute|].
  split; [by vm_compute|]. split; by vm_compute.
Qed.

(** ** Ordering of the three distances (claim C6) *)

(** C6, as the code has it.  For two non-empty clusters of valid points
    the three methods return distances (a zero, a positive number or
    [+inf], never a NaN), and the nearest-neighbour distance is less than
    or equal to the farthest-neighbour distance. *)
Theorem cluster_distance_min_le_max (a b : cluster_t) :
  cluster_ok a -> cluster_ok b -> cl_size a * cl_size b <= INT_MAX ->
  exists dmin davg dmax,
    cluster_distance MIN a b = Ok dmin /\
    cluster_distance AVERAGE a b = Ok davg /\
    cluster_distance MAX a b = Ok dmax /\
    F32.is_distance dmin = true /\ F32.is_distance davg = true /\
    F32.is_distance dmax = true /\
    F32.le dmin dmax = true.
Proof.
  intros (Hwa & Hsa & Hva) (Hwb & Hsb & Hvb) Hmax.
  pose proof (objects_length a Hwa) as Hla.
  pose proof (objects_length b Hwb) as Hlb.
  exists (linkage MIN (objects a) (objects b)),
    (linkage AVERAGE (objects a) (objects b)),
    (linkage MAX (objects a) (objects b)).
  rewrite !cluster_distance_linkage
    by (done || (left; reflexivity) || (right; left; reflexivity)
        || (right; right; reflexivity)).
  repeat split; try reflexivity.
  - apply linkage_distance; try (done || lia). right. by left.
  - apply linkage_distance; try (done || lia). by left.
  - apply linkage_distance; try (done || lia). right. by right.
  - apply linkage_min_le_max; (done || lia).
Qed.

Lemma cluster_distance_min_le_max_witness :
  exists dmin davg dmax,
    cluster_distance MIN ring_a ring_b = Ok dmin /\
    cluster_distance AVERAGE ring_a ring_b = Ok davg /\
    cluster_distance MAX ring_a ring_b = Ok dmax /\
    F32.is_distance dmin = true /\ F32.is_distance davg = true /\
    F32.is_distance dmax = true /\
    F32.le dmin dmax = true.
Proof.
  apply (cluster_distance_min_le_max ring_a ring_b).
  - repeat constructor; by vm_compute.
  - repeat constructor; by vm_compute.
  - by vm_compute.
Defined.

(** The three objects of [ring_b] are at the same distance [d] from the
    object of [ring_a]; the rounded sum [d + d + d] divided by 3 is the
    number after [d], above the farthest-neighbour distance. *)
Lemma cluster_distance_average_above_max :
  cluster_ok ring_a /\ cluster_ok ring_b /\
  cluster_distance MIN ring_a ring_b = Ok (S754_finite false 13263554 (-22)) /\
  cluster_distance AVERAGE ring_a ring_b
    = Ok (S754_finite false 13263555 (-22)) /\
  cluster_distance MAX ring_a ring_b = Ok (S754_finite false 13263554 (-22)) /\
  F32.le (S754_finite false 13263555 (-22))
         (S754_finite false 13263554 (-22)) = false.
Proof.
  split; [repeat constructor; by vm_compute|].
  split; [repeat constructor; by vm_compute|].
  repeat split; by vm_compute.
Qed.

(** ** The sorted invariant (claim C7) *)

(** C7.  When the identifiers of the objects of both clusters are
    pairwise distinct, [merge_clusters (c1, c2)] leaves in [c1] the
    objects of both clusters in strictly ascending order of identifier. *)
Theorem merge_clusters_sorted (al : allocator) (c1 c2 : cluster_t) :
  total_allocator al -> cluster_wf c1 -> cluster_wf c2 ->
  NoDup (o_id <$> objects c1 ++ objects c2) ->
  exists c,
    merge_clusters al c1 c2 = Ok c /\
    ascending (objects c) /\
    objects c ≡ₚ objects c1 ++ objects c2.
Proof.
  intros Hal Hw1 Hw2 Hnd.
  destruct (merge_clusters_ok al c1 c2 Hal Hw1 Hw2)
    as (c & Hm & _ & Hobj & _).
  exists c. split; [done|]. rewrite Hobj.
  split; [by apply qsort_ascending|apply qsort_perm].
Qed.

Lemma merge_clusters_sorted_witness :
  exists c,
    merge_clusters plentiful skew_b skew_a = Ok c /\
    ascending (objects c) /\
    objects c ≡ₚ objects skew_b ++ objects skew_a.
Proof.
  apply (merge_clusters_sorted plentiful skew_b skew_a).
  - intros n. reflexivity.
  - by vm_compute.
  - by vm_compute.
  - apply (bool_decide_unpack _). by vm_compute.
Defined.

(** ** Conservation (claim C1) *)

(** C1, as the code has it.  After any number [k] of iterations of the
    clustering loop that leaves at least one cluster, the sum of the
    cluster sizes is the original one and the points of the collection are
    the original points, each of them once; when the original
    identifiers are pairwise distinct, every original identifier occurs in
    exactly one cluster. *)
Theorem clustering_conserves_points (m : Z) (al : allocator)
  (clusters : list cluster_t) (size : Z) (k : nat) (c1 c2 : option Z) :
  is_method m -> total_allocator al ->
  collection_ok clusters size -> 1 <= size - Z.of_nat k ->
  exists clusters' c1' c2',
    iterate k (loop_body m al) (clusters, size, c1, c2)
      = Ok (clusters', size - Z.of_nat k, c1', c2') /\
    total_size clusters' (size - Z.of_nat k) = total_size clusters size /\
    points clusters' (size - Z.of_nat k) ≡ₚ points clusters size /\
    (NoDup (o_id <$> points clusters size) ->
     ids_in_one_cluster (points clusters size)
       (collection clusters' (size - Z.of_nat k))).
Proof.
  intros Hm Hal Hok Hk.
  destruct (iterate_loop_body_ok m al k Hm Hal clusters size c1 c2 Hok Hk)
    as (clusters' & c1' & c2' & Hit & Hok' & Hperm & _).
  exists clusters', c1', c2'. split; [done|]. split.
  - destruct Hok as (_ & Hall & _). destruct Hok' as (_ & Hall' & _).
    by rewrite (total_size_points _ _ Hall), (total_size_points _ _ Hall'),
      Hperm.
  - split; [done|]. intros Hnd o Ho. apply clusters_with_id_one.
    + fold (points clusters' (size - Z.of_nat k)). by rewrite Hperm.
    + fold (points clusters' (size - Z.of_nat k)). by rewrite Hperm.
Qed.

Lemma clustering_conserves_points_witness :
  exists clusters' c1' c2',
    iterate 2 (loop_body AVERAGE plentiful) (example_clusters, 4, None, None)
      = Ok (clusters', 4 - Z.of_nat 2, c1', c2') /\
    total_size clusters' (4 - Z.of_nat 2) = total_size example_clusters 4 /\
    points clusters' (4 - Z.of_nat 2) ≡ₚ points example_clusters 4 /\
    (NoDup (o_id <$> points example_clusters 4) ->
     ids_in_one_cluster (points example_clusters 4)
       (collection clusters' (4 - Z.of_nat 2))).
Proof.
  apply (clustering_conserves_points AVERAGE plentiful example_clusters 4 2
           None None).
  - left. reflexivity.
  - intros n. reflexivity.
  - split; [simpl; lia|]. split; [|by vm_compute].
    repeat constructor; by vm_compute.
  - simpl. lia.
Defined.

(** With two objects of identifier 5 the loop keeps both, in two
    clusters: one iteration on [twin_clusters] merges the first two
    clusters and leaves the identifier 5 in both remaining clusters. *)
Lemma clustering_twin_ids :
  collection_ok twin_clusters 3 /\
  iterate 1 (loop_body AVERAGE plentiful) (twin_clusters, 3, None, None)
    = Ok (twin_merged, 2, Some 0, Some 1) /\
  clusters_with_id 5 (collection twin_merged 2) = 2%nat /\
  ~ ids_in_one_cluster (points twin_clusters 3) (collection twin_merged 2).
Proof.
  split.
  { split; [simpl; lia|]. split; [|by vm_compute].
    repeat constructor; by vm_compute. }
  split; [by vm_compute|]. split; [by vm_compute|].
  intros H. specialize (H (point 5 0 0)).
  assert (point 5 0 0 ∈ points twin_clusters 3) as Hin by (simpl; left).
  specialize (H Hin). by vm_compute in H.
Qed.

(** ** Termination (claim C2) *)

(** C2.  For a collection of [size] clusters and a target [narr] with
    [1 <= narr <= size], the clustering loop of [main] ends, after exactly
    [size - narr] runs of its body (before each of them more than [narr]
    clusters are left), with [narr] clusters. *)
Theorem cluster_loop_terminates (m : Z) (al : allocator)
  (clusters : list cluster_t) (size narr : Z) :
  is_method m -> total_allocator al ->
  collection_ok clusters size -> 1 <= narr <= size ->
  exists clusters' c1 c2,
    cluster_loop m al clusters size narr = Ok (clusters', narr, c1, c2) /\
    iterate (Z.to_nat (size - narr)) (loop_body m al)
      (clusters, size, None, None) = Ok (clusters', narr, c1, c2) /\
    (forall (j : nat) (t : loop_state), (j < Z.to_nat (size - narr))%nat ->
       iterate j (loop_body m al) (clusters, size, None, None) = Ok t ->
       state_size t > narr) /\
    length (collection clusters' narr) = Z.to_nat narr.
Proof.
  intros Hm Hal Hok Hn.
  destruct (iterate_loop_body_ok m al (Z.to_nat (size - narr)) Hm Hal
              clusters size None None Hok)
    as (clusters' & c1 & c2 & Hit & Hok' & _ & Hlen); [lia|].
  replace (size - Z.of_nat (Z.to_nat (size - narr))) with narr in * by lia.
  assert (forall (j : nat) (t : loop_state), (j < Z.to_nat (size - narr))%nat ->
            iterate j (loop_body m al) (clusters, size, None, None) = Ok t ->
            state_size t > narr) as Hrun.
  { intros j t Hj Ht.
    destruct (iterate_loop_body_ok m al j Hm Hal clusters size None None Hok)
      as (cj & c1j & c2j & Hitj & _); [lia|].
    rewrite Hitj in Ht. injection Ht as <-. simpl. lia. }
  exists clusters', c1, c2. split; [|split; [done|split; [done|]]].
  - unfold cluster_loop.
    apply (while_loop_iterate _ _ (Z.to_nat (size - narr))); [done|lia| |].
    + simpl. rewrite Z.gtb_ltb. apply Z.ltb_ge. lia.
    + intros j [[[cj sj] c1j] c2j] Hj Ht. specialize (Hrun j _ Hj Ht).
      simpl in Hrun. rewrite Z.gtb_ltb. apply Z.ltb_lt. lia.
  - apply collection_length. destruct Hok' as (Hb & _). lia.
Qed.

Lemma cluster_loop_terminates_witness :
  exists clusters' c1 c2,
    cluster_loop MAX plentiful example_clusters 4 1
      = Ok (clusters', 1, c1, c2) /\
    iterate (Z.to_nat (4 - 1)) (loop_body MAX plentiful)
      (example_clusters, 4, None, None) = Ok (clusters', 1, c1, c2) /\
    (forall (j : nat) (t : loop_state), (j < Z.to_nat (4 - 1))%nat ->
       iterate j (loop_body MAX plentiful) (example_clusters, 4, None, None)
         = Ok t ->
       state_size t > 1) /\
    length (collection clusters' 1) = Z.to_nat 1.
Proof.
  apply (cluster_loop_terminates MAX plentiful example_clusters 4 1).
  - right. right. reflexivity.
  - intros n. reflexivity.
  - split; [simpl; lia|]. split; [|by vm_compute].
    repeat constructor; by vm_compute.
  - lia.
Defined.

(** ** Allocation failure (claim C8) *)

(** When [realloc] fails on a full cluster, [resize_cluster] returns
    [NULL] and [append_cluster], which drops that result, stores the
    object past the end of the buffer. *)
Lemma append_cluster_unchecked (al : allocator) (c : cluster_t) (o : obj_t) :
  cluster_wf c -> cl_size c = cl_capacity c ->
  (forall n, al n = false) ->
  resize_cluster al c (cl_capacity c + CLUSTER_CHUNK) = Ok (c, false) /\
  append_cluster al c o = Undefined.
Proof.
  intros ((H0 & H1) & Hlen) Hfull Hal.
  assert (grow_cap (Z.to_nat (cl_size c - cl_capacity c + 1)) (cl_size c)
            (cl_capacity c) = cl_capacity c + CLUSTER_CHUNK) as Hgrow.
  { replace (Z.to_nat (cl_size c - cl_capacity c + 1)) with 1%nat by lia.
    simpl. destruct (Z.geb_spec (cl_size c) (cl_capacity c)); [done|lia]. }
  assert (resize_cluster al c (cl_capacity c + CLUSTER_CHUNK) = Ok (c, false))
    as Hres.
  { unfold resize_cluster.
    rewrite !assert_true by (apply Z.leb_le; unfold CLUSTER_CHUNK; lia).
    simpl. rewrite Hal.
    destruct (Z.geb_spec (cl_capacity c) (cl_capacity c + CLUSTER_CHUNK));
      [unfold CLUSTER_CHUNK in *; lia|done]. }
  split; [done|]. unfold append_cluster. rewrite Hgrow, Hres. simpl.
  rewrite store_out_of_range by lia. done.
Qed.

(** C8 at a full cluster of one object, with an allocator that fails:
    [resize_cluster] reports the failure ([NULL], the cluster is
    unchanged), [append_cluster] does not and runs into undefined
    behaviour. *)
Theorem append_cluster_allocation_failure :
  resize_cluster exhausted (singleton (point 1 1 1)) 11
    = Ok (singleton (point 1 1 1), false) /\
  append_cluster exhausted (singleton (point 1 1 1)) (point 2 2 2)
    = Undefined.
Proof. split; reflexivity. Qed.

(** ** The end-to-end example (claim C9) *)

(** C9.  On the clusters of the points 1:(1,1), 2:(2,2), 3:(3,3),
    4:(10,10) with the average method and the target 2: the pairs
    [{1},{2}] and [{2},{3}] are at the same distance and
    [find_neighbours] returns the later one, [(1, 2)]; the first run of
    the loop body leaves [{1}, {2,3}, {4}]; the second one merges the
    clusters 0 and 1; the loop ends with [{1,2,3}, {4}], the first cluster
    in the order 1, 2, 3. *)
Theorem end_to_end_example :
  pair_distance AVERAGE example_clusters 0 1
    = pair_distance AVERAGE example_clusters 1 2 /\
  find_neighbours AVERAGE example_clusters 4 None None
    = Ok (Some 1, Some 2) /\
  exists clusters1 clusters2,
    loop_body AVERAGE plentiful (example_clusters, 4, None, None)
      = Ok (clusters1, 3, Some 1, Some 2) /\
    collection clusters1 3
      = [[point 1 1 1]; [point 2 2 2; point 3 3 3]; [point 4 10 10]] /\
    loop_body AVERAGE plentiful (clusters1, 3, Some 1, Some 2)
      = Ok (clusters2, 2, Some 0, Some 1) /\
    cluster_loop AVERAGE plentiful example_clusters 4 2
      = Ok (clusters2, 2, Some 0, Some 1) /\
    collection clusters2 2
      = [[point 1 1 1; point 2 2 2; point 3 3 3]; [point 4 10 10]].
Proof.
  split; [by vm_compute|]. split; [by vm_compute|].
  do 2 eexists.
  split; [vm_compute; reflexivity|]. split; [vm_compute; reflexivity|].
  split; [vm_compute; reflexivity|]. split; vm_compute; reflexivity.
Qed.

(** The loop ends with [narr] clusters of a collection that is still
    well formed. *)
Lemma cluster_loop_iterate_ok (m : Z) (al : allocator)
  (clusters : list cluster_t) (size narr : Z) :
  is_method m -> total_allocator al ->
  collection_ok clusters size -> 1 <= narr <= size ->
  exists clusters' c1 c2,
    cluster_loop m al clusters size narr = Ok (clusters', narr, c1, c2) /\
    collection_ok clusters' narr.
Proof.
  intros Hm Hal Hok Hn.
  destruct (iterate_loop_body_ok m al (Z.to_nat (size - narr)) Hm Hal
              clusters size None None Hok)
    as (clusters' & c1 & c2 & Hit & Hok' & _ & Hlen); [lia|].
  replace (size - Z.of_nat (Z.to_nat (size - narr))) with narr in * by lia.
  exists clusters', c1, c2. split; [|done]. unfold cluster_loop.
  apply (while_loop_iterate _ _ (Z.to_nat (size - narr))); [done|lia| |].
  - simpl. rewrite Z.gtb_ltb. apply Z.ltb_ge. lia.
  - intros j [[[cj sj] c1j] c2j] Hj Ht.
    destruct (iterate_loop_body_ok m al j Hm Hal clusters size None None Hok)
      as (cj' & c1j' & c2j' & Hitj & _); [lia|].
    rewrite Hitj in Ht. injection Ht as <- <- <- <-.
    simpl. rewrite Z.gtb_ltb. apply Z.ltb_lt. lia.
Qed.

(** ** An unknown method flag (claim C10) *)

Lemma foldl_snoc_app {A} (l acc : list A) :
  foldl (fun out o => out ++ [o]) acc l = acc ++ l.
Proof.
  revert acc. induction l as [|a l IH]; intros acc; simpl.
  - by rewrite app_nil_r.
  - by rewrite IH, <- app_assoc.
Qed.

Lemma print_cluster_ok (c : cluster_t) :
  cluster_wf c -> print_cluster c = Ok (objects c).
Proof.
  intros Hw. unfold print_cluster.
  rewrite (for_loop_objects c _ (fun out o => out ++ [o])); [|done|].
  - by rewrite foldl_snoc_app.
  - intros i o out Hi Ho. by rewrite (objects_load c i o).
Qed.

Lemma print_clusters_ok (carr : list cluster_t) (n : Z) :
  collection_ok carr n -> print_clusters carr n = Ok (collection carr n).
Proof.
  intros Hok. pose proof Hok as (Hn & _). unfold print_clusters.
  destruct (for_loop_inv (fun i out => out = collection carr i)
    (Z.to_nat n) 0
    (fun i out => c ← load carr i; line ← print_cluster c; Ok (out ++ [line]))
    []) as (out & Hloop & Hout).
  - done.
  - intros i out Hi ->.
    destruct (collection_ok_lookup carr n i Hok) as (c & Hc & (Hw & _) & Hl & _);
      [lia|].
    rewrite Hl. simpl. rewrite print_cluster_ok by done. simpl.
    eexists. split; [reflexivity|]. unfold collection.
    replace (Z.to_nat (i + 1)) with (S (Z.to_nat i)) by lia.
    by rewrite (take_S_r _ _ c), fmap_app.
  - rewrite Hloop, Hout. f_equal. f_equal. lia.
Qed.

Lemma clear_clusters_ok (carr : list cluster_t) (n : Z) :
  0 <= n <= Z.of_nat (length carr) ->
  exists carr',
    for_loop (Z.to_nat n) 0
      (fun i clusters => c ← load clusters i;
                         store clusters i (clear_cluster c)) carr
    = Ok carr'.
Proof.
  intros Hn.
  destruct (for_loop_inv (fun _ cl => length cl = length carr)
    (Z.to_nat n) 0
    (fun i clusters => c ← load clusters i;
                       store clusters i (clear_cluster c)) carr)
    as (carr' & Hloop & _); [done| |by exists carr'].
  intros i cl Hi Hlen.
  destruct (lookup_lt_is_Some_2 cl (Z.to_nat i)) as [c Hc]; [lia|].
  rewrite (load_lookup _ _ c) by (done || lia). simpl.
  rewrite store_in_range by lia. eexists. split; [reflexivity|].
  by rewrite length_insert.
Qed.

(** C10.  When the fourth argument is neither ["--min"] nor ["--max"],
    [main] clusters with the average method, whatever the argument is,
    and on a valid file and count it prints the clusters that method
    gives and returns 0. *)
Theorem main_unknown_method (env : environment) (argv : list string)
  (file count flag : string) (v size : Z) (clusters : list cluster_t) :
  argv !! 1%nat = Some file -> argv !! 2%nat = Some count ->
  argv !! 3%nat = Some flag ->
  flag <> "--min"%string -> flag <> "--max"%string ->
  env_strtol env count = (v, EmptyString) -> 1 <= to_int v <= size ->
  env_load_clusters env file = (size, clusters) ->
  collection_ok clusters size ->
  total_allocator (env_alloc env) ->
  exists clusters' c1 c2,
    cluster_loop AVERAGE (env_alloc env) clusters size (to_int v)
      = Ok (clusters', to_int v, c1, c2) /\
    main env argv = Ok (0, collection clusters' (to_int v)).
Proof.
  intros H1 H2 H3 Hmin Hmax Hstr Hv Hload Hok Hal.
  destruct (cluster_loop_iterate_ok AVERAGE (env_alloc env) clusters size
              (to_int v)) as (clusters' & c1 & c2 & Hloop & Hok');
    [by left|done..|].
  exists clusters', c1, c2. split; [done|].
  pose proof (lookup_lt_Some _ _ _ H3) as Hargc.
  unfold main.
  destruct (Z.ltb_spec (Z.of_nat (length argv)) 2); [lia|].
  destruct (Z.gtb_spec (Z.of_nat (length argv)) 3); [|lia].
  destruct (Z.gtb_spec (Z.of_nat (length argv)) 2); [|lia].
  rewrite (load_lookup argv 3 flag), (load_lookup argv 2 count),
    (load_lookup argv 1 file) by (done || lia).
  apply String.eqb_neq in Hmin, Hmax.
  repeat (rewrite bind_ok; cbv beta iota zeta).
  rewrite Hmin, Hmax. cbv iota.
  repeat (rewrite bind_ok; cbv beta iota zeta).
  rewrite Hstr. cbv beta iota zeta.
  change (negb (Nat.eqb (String.length EmptyString) 0)) with false. cbv iota.
  destruct (Z.leb_spec (to_int v) 0); [lia|].
  repeat (rewrite bind_ok; cbv beta iota zeta).
  rewrite Hload. cbv beta iota zeta.
  destruct (Z.eqb_spec size 0); [lia|].
  destruct (Z.gtb_spec (to_int v) size); [lia|]. simpl andb. cbv iota.
  unfold AVERAGE in Hloop. rewrite Hloop.
  repeat (rewrite bind_ok; cbv beta iota zeta).
  rewrite print_clusters_ok by done.
  repeat (rewrite bind_ok; cbv beta iota zeta).
  destruct (clear_clusters_ok clusters' (to_int v)) as (cl & ->).
  { destruct Hok' as (Hb & _). lia. }
  reflexivity.
Qed.

Lemma main_unknown_method_witness :
  exists clusters' c1 c2,
    cluster_loop AVERAGE (env_alloc example_env) example_clusters 4 (to_int 2)
      = Ok (clusters', to_int 2, c1, c2) /\
    main example_env example_argv = Ok (0, collection clusters' (to_int 2)).
Proof.
  apply (main_unknown_method example_env example_argv
           "objects" "2" "--median" 2 4 example_clusters).
  - reflexivity.
  - reflexivity.
  - reflexivity.
  - discriminate.
  - discriminate.
  - reflexivity.
  - by vm_compute.
  - reflexivity.
  - split; [simpl; lia|]. split; [|by vm_compute].
    repeat constructor; by vm_compute.
  - intros n. reflexivity.
Defined.

(** * Further properties of the cluster store *)

(** X1.  [init_cluster] with a capacity [cap >= 0] that [malloc] can
    satisfy (or with [cap = 0], which allocates nothing) makes the slot an
    empty cluster of capacity [cap], whatever the slot held before. *)
Theorem init_cluster_empty (al : allocator) (slot : cluster_t) (cap : Z) :
  0 <= cap -> cap = 0 \/ al (cap * sizeof_obj_t) = true ->
  exists c, init_cluster al slot cap = Ok c /\ cluster_wf c /\
            cl_size c = 0 /\ cl_capacity c = cap /\ objects c = [].
Proof.
  intros Hcap Hal. unfold init_cluster.
  rewrite assert_true by (by apply Z.leb_le). rewrite bind_ok. cbv beta zeta.
  destruct (Z.ltb_spec 0 cap) as [Hpos|Hzero].
  - destruct Hal as [->|Hal]; [lia|]. rewrite Hal. eexists. split; [done|].
    unfold cluster_wf, objects. simpl.
    rewrite (realloc_block_length [] cap) by (simpl; lia).
    repeat split; lia.
  - assert (cap = 0) as -> by lia. eexists. split; [done|].
    unfold cluster_wf, objects. simpl. repeat split; lia.
Qed.

Lemma init_cluster_empty_witness :
  exists c, init_cluster plentiful (singleton (point 1 1 1)) 3 = Ok c /\
            cluster_wf c /\ cl_size c = 0 /\ cl_capacity c = 3 /\
            objects c = [].
Proof.
  apply (init_cluster_empty plentiful (singleton (point 1 1 1)) 3).
  - lia.
  - right. reflexivity.
Defined.

(** X2.  When no allocation succeeds, the two calls [load_clusters] makes
    for a data line ([init_cluster] with capacity 1, then
    [append_cluster]) never yield a cluster: [init_cluster] leaves [obj]
    [NULL] and [capacity] as it was, and [append_cluster] either fails the
    assertion of [resize_cluster] on a negative stale capacity or stores
    through the [NULL] buffer. *)
Theorem load_line_no_memory (al : allocator) (slot : cluster_t) (o : obj_t) :
  (forall n, al n = false) ->
  load_line al slot o = Abort \/ load_line al slot o = Undefined.
Proof.
  intros Hal. unfold load_line, init_cluster. simpl. rewrite Hal. simpl.
  unfold append_cluster, resize_cluster. simpl.
  destruct (Z.leb_spec 0 (cl_capacity slot)) as [Hc|Hc]; [|by left].
  right. simpl.
  set (cap := grow_cap _ _ _).
  destruct (grow_cap_exit (Z.to_nat (0 - cl_capacity slot + 1)) 0
              (cl_capacity slot)) as (_ & Hge & _); [lia|].
  fold cap in Hge.
  rewrite assert_true by (apply Z.leb_le; lia). simpl.
  destruct (cl_capacity slot >=? cap); simpl; [done|].
  by rewrite Hal.
Qed.

Lemma load_line_no_memory_witness :
  load_line exhausted (mk_cluster 0 0 []) (point 1 1 1) = Abort \/
  load_line exhausted (mk_cluster 0 0 []) (point 1 1 1) = Undefined.
Proof.
  apply (load_line_no_memory exhausted (mk_cluster 0 0 []) (point 1 1 1)).
  intros n. reflexivity.
Defined.

(** X3.  [resize_cluster] never shrinks and keeps the objects: on a
    well-formed cluster, when the request is within the capacity or
    [realloc] succeeds, it returns the cluster (not [NULL]) with the same
    objects and size and the capacity [max capacity new_cap]. *)
Theorem resize_cluster_grows (al : allocator) (c : cluster_t) (new_cap : Z) :
  cluster_wf c -> 0 <= new_cap ->
  new_cap <= cl_capacity c \/ al (sizeof_obj_t * new_cap) = true ->
  exists c', resize_cluster al c new_cap = Ok (c', true) /\
             cluster_wf c' /\ objects c' = objects c /\
             cl_size c' = cl_size c /\
             cl_capacity c' = Z.max (cl_capacity c) new_cap.
Proof.
  intros ((H0 & H1) & Hlen) Hn Hal. unfold resize_cluster.
  rewrite !assert_true by (apply Z.leb_le; lia). simpl.
  destruct (Z.geb_spec (cl_capacity c) new_cap) as [Hge|Hlt].
  - exists c. repeat split; (done || lia).
  - destruct Hal as [Hle|Hal]; [lia|]. rewrite Hal. eexists.
    split; [done|]. unfold cluster_wf, objects. simpl.
    rewrite (realloc_block_length (cl_obj c) new_cap) by lia.
    rewrite realloc_block_take by lia. repeat split; lia.
Qed.

Lemma resize_cluster_grows_witness :
  exists c', resize_cluster plentiful skew_a 7 = Ok (c', true) /\
             cluster_wf c' /\ objects c' = objects skew_a /\
             cl_size c' = cl_size skew_a /\
             cl_capacity c' = Z.max (cl_capacity skew_a) 7.
Proof.
  apply (resize_cluster_grows plentiful skew_a 7).
  - by vm_compute.
  - lia.
  - right. reflexivity.
Defined.

(** X4.  [append_cluster] on a well-formed cluster with room left needs
    no allocation; on a full one it needs [realloc] to succeed and grows
    the capacity by exactly [CLUSTER_CHUNK].  In both cases the object
    becomes the last one and the size grows by one. *)
Theorem append_cluster_grows (al : allocator) (c : cluster_t) (o : obj_t) :
  cluster_wf c -> cl_size c < cl_capacity c \/ total_allocator al ->
  exists c', append_cluster al c o = Ok c' /\ cluster_wf c' /\
             objects c' = objects c ++ [o] /\
             cl_size c' = cl_size c + 1 /\
             cl_capacity c' =
               (if cl_size c <? cl_capacity c then cl_capacity c
                else cl_capacity c + CLUSTER_CHUNK).
Proof.
  intros ((Hs0 & Hsc) & Hlen) Hal. unfold append_cluster.
  destruct (grow_cap_exit (Z.to_nat (cl_size c - cl_capacity c + 1))
              (cl_size c) (cl_capacity c)) as (Hgt & Hge & Hid); [lia|].
  assert (cl_size c = cl_capacity c ->
          grow_cap (Z.to_nat (cl_size c - cl_capacity c + 1)) (cl_size c)
            (cl_capacity c) = cl_capacity c + CLUSTER_CHUNK) as Hfull.
  { intros Heq.
    replace (Z.to_nat (cl_size c - cl_capacity c + 1)) with 1%nat by lia.
    simpl. destruct (Z.geb_spec (cl_size c) (cl_capacity c)); [done|lia]. }
  set (cap := grow_cap _ _ _) in *.
  unfold resize_cluster.
  rewrite !assert_true by (apply Z.leb_le; lia). simpl.
  destruct (Z.ltb_spec (cl_size c) (cl_capacity c)) as [Hroom|Hnoroom].
  - rewrite Hid by done.
    destruct (Z.geb_spec (cl_capacity c) (cl_capacity c)); [|lia]. simpl.
    rewrite store_in_range by lia. simpl. eexists. split; [reflexivity|].
    unfold cluster_wf, objects. simpl. rewrite length_insert.
    repeat split; try lia.
    replace (Z.to_nat (cl_size c + 1)) with (S (Z.to_nat (cl_size c))) by lia.
    apply take_insert_snoc. lia.
  - destruct Hal as [?|Hal]; [lia|]. rewrite Hfull by lia.
    destruct (Z.geb_spec (cl_capacity c) (cl_capacity c + CLUSTER_CHUNK));
      [unfold CLUSTER_CHUNK in *; lia|].
    rewrite Hal. simpl.
    pose proof (realloc_block_length (cl_obj c)
                  (cl_capacity c + CLUSTER_CHUNK)) as Hrl.
    unfold CLUSTER_CHUNK in *.
    rewrite store_in_range by lia. simpl. eexists. split; [reflexivity|].
    unfold cluster_wf, objects. simpl. rewrite length_insert.
    repeat split; try lia.
    replace (Z.to_nat (cl_size c + 1)) with (S (Z.to_nat (cl_size c))) by lia.
    rewrite take_insert_snoc by lia.
    by rewrite realloc_block_take by lia.
Qed.

Lemma append_cluster_grows_witness :
  exists c', append_cluster plentiful skew_a (point 9 9 9) = Ok c' /\
             cluster_wf c' /\
             objects c' = objects skew_a ++ [point 9 9 9] /\
             cl_size c' = cl_size skew_a + 1 /\
             cl_capacity c' =
               (if cl_size skew_a <? cl_capacity skew_a
                then cl_capacity skew_a
                else cl_capacity skew_a + CLUSTER_CHUNK).
Proof.
  apply (append_cluster_grows plentiful skew_a (point 9 9 9)).
  - by vm_compute.
  - right. intros n. reflexivity.
Defined.

Lemma sorted_nondecreasing (l : list obj_t) :
  StronglySorted (compar_le obj_sort_compar) l -> nondecreasing l.
Proof.
  induction 1 as [|x l Hl IH Hx]; constructor; [done|].
  eapply Forall_impl; [exact Hx|]. intros y Hy. by apply compar_le_id.
Qed.

(** X5.  [merge_clusters] on two well-formed clusters, whatever their
    identifiers (duplicates included), leaves in the target the objects of
    both, in non-decreasing order of identifier; the size is the sum of
    both sizes. *)
Theorem merge_clusters_nondecreasing (al : allocator) (c1 c2 : cluster_t) :
  total_allocator al -> cluster_wf c1 -> cluster_wf c2 ->
  exists c, merge_clusters al c1 c2 = Ok c /\ cluster_wf c /\
            cl_size c = cl_size c1 + cl_size c2 /\
            objects c ≡ₚ objects c1 ++ objects c2 /\
            nondecreasing (objects c).
Proof.
  intros Hal Hw1 Hw2.
  destruct (merge_clusters_ok al c1 c2 Hal Hw1 Hw2)
    as (c & Hm & Hw & Hobj & Hsz).
  exists c. split; [done|]. split; [done|]. split; [done|]. rewrite Hobj.
  split; [apply qsort_perm|apply sorted_nondecreasing, qsort_sorted].
Qed.

Lemma merge_clusters_nondecreasing_witness :
  exists c, merge_clusters plentiful ring_b ring_b = Ok c /\ cluster_wf c /\
            cl_size c = cl_size ring_b + cl_size ring_b /\
            objects c ≡ₚ objects ring_b ++ objects ring_b /\
            nondecreasing (objects c).
Proof.
  apply (merge_clusters_nondecreasing plentiful ring_b ring_b).
  - intros n. reflexivity.
  - by vm_compute.
  - by vm_compute.
Defined.

(** X6.  [obj_sort_compar] is a comparison function as [qsort] requires
    it: it returns -1, 0 or 1, swapping the arguments negates the result,
    it returns 0 exactly on equal identifiers, and it orders
    transitively. *)
Theorem obj_sort_compar_consistent (a b c : obj_t) :
  (obj_sort_compar a b = -1 \/ obj_sort_compar a b = 0 \/
   obj_sort_compar a b = 1) /\
  obj_sort_compar a b = - obj_sort_compar b a /\
  (obj_sort_compar a b = 0 <-> o_id a = o_id b) /\
  (obj_sort_compar a b < 0 <-> o_id a < o_id b) /\
  (obj_sort_compar a b <= 0 -> obj_sort_compar b c <= 0 ->
   obj_sort_compar a c <= 0).
Proof.
  unfold obj_sort_compar.
  destruct (Z.ltb_spec (o_id a) (o_id b)), (Z.gtb_spec (o_id a) (o_id b)),
    (Z.ltb_spec (o_id b) (o_id a)), (Z.gtb_spec (o_id b) (o_id a)),
    (Z.ltb_spec (o_id b) (o_id c)), (Z.gtb_spec (o_id b) (o_id c)),
    (Z.ltb_spec (o_id a) (o_id c)), (Z.gtb_spec (o_id a) (o_id c)); lia.
Qed.




(** * Further properties of the distance metric *)


(** X10.  Between two objects with coordinates in [0, 1000],
    [obj_distance] is a zero, a positive number or [+inf]: never a NaN,
    never negative. *)
Theorem obj_distance_never_nan (o1 o2 : obj_t) :
  obj_valid o1 -> obj_valid o2 ->
  F32.is_distance (obj_distance o1 o2) = true /\
  F32.is_nan (obj_distance o1 o2) = false /\
  F32.le F32.zero (obj_distance o1 o2) = true.
Proof.
  intros H1 H2. pose proof (obj_distance_distance o1 o2 H1 H2) as Hd.
  by destruct (obj_distance o1 o2) as [[]|[]| |[] ? ?].
Qed.

Lemma obj_distance_never_nan_witness :
  F32.is_distance (obj_distance (point 1 0 1000) (point 2 1000 0)) = true /\
  F32.is_nan (obj_distance (point 1 0 1000) (point 2 1000 0)) = false /\
  F32.le F32.zero (obj_distance (point 1 0 1000) (point 2 1000 0)) = true.
Proof.
  apply (obj_distance_never_nan (point 1 0 1000) (point 2 1000 0));
    split; by vm_compute.
Defined.

Lemma sub_self_zero (a : float) :
  F32.is_finite a = true -> F32.sub a a = F32.zero.
Proof.
  destruct a as [[]| | |s m e]; simpl; try done. intros _.
  replace (_ - _) with 0; [done|].
  destruct s; simpl; lia.
Qed.

(** X9.  The distance of an object to an object at the same finite
    coordinates is [+0]. *)
Theorem obj_distance_same_place (o1 o2 : obj_t) :
  F32.is_finite (o_x o1) = true -> F32.is_finite (o_y o1) = true ->
  o_x o2 = o_x o1 -> o_y o2 = o_y o1 ->
  obj_distance o1 o2 = F32.zero.
Proof.
  intros Hx Hy Ex Ey. unfold obj_distance. rewrite Ex, Ey.
  by rewrite !sub_self_zero.
Qed.

Lemma obj_distance_same_place_witness :
  obj_distance (point 1 3 4) (point 2 3 4) = F32.zero.
Proof.
  apply (obj_distance_same_place (point 1 3 4) (point 2 3 4));
    reflexivity.
Defined.

(** X11.  [cluster_distance] on an empty cluster fails its assertion,
    whatever the method. *)
Theorem cluster_distance_empty (m : Z) (c1 c2 : cluster_t) :
  cl_size c1 <= 0 \/ cl_size c2 <= 0 -> cluster_distance m c1 c2 = Abort.
Proof.
  intros H. unfold cluster_distance, assert.
  destruct (Z.ltb_spec 0 (cl_size c1)); [|done].
  destruct (Z.ltb_spec 0 (cl_size c2)); [lia|done].
Qed.

Lemma cluster_distance_empty_witness :
  cluster_distance MIN (clear_cluster skew_a) skew_b = Abort.
Proof.
  apply (cluster_distance_empty MIN (clear_cluster skew_a) skew_b).
  left. simpl. lia.
Defined.

(** X12.  With a value of [premium_case] other than 0, 1 and 2 none of the
    three branches of [cluster_distance] runs and the function returns its
    local [result] without ever having assigned it. *)
Theorem cluster_distance_unknown_method (m : Z) (c1 c2 : cluster_t) :
  m <> 0 -> m <> 1 -> m <> 2 -> 0 < cl_size c1 -> 0 < cl_size c2 ->
  cluster_distance m c1 c2 = Undefined.
Proof.
  intros H0 H1 H2 Hs1 Hs2. unfold cluster_distance.
  rewrite !assert_true by (by apply Z.ltb_lt).
  repeat (rewrite bind_ok; cbv beta zeta).
  destruct (Z.eqb_spec m 0); [done|].
  destruct (Z.eqb_spec m 1); [done|].
  destruct (Z.eqb_spec m 2); [done|]. reflexivity.
Qed.

Lemma cluster_distance_unknown_method_witness :
  cluster_distance 3 skew_a skew_b = Undefined.
Proof.
  apply (cluster_distance_unknown_method 3 skew_a skew_b);
    (done || (simpl; lia)).
Defined.

(** X13.  On two non-empty clusters of valid points the nearest-neighbour
    method returns the distance of a pair of their objects that is less
    than or equal to the distance of every pair, and the
    farthest-neighbour method one that is greater than or equal to the
    distance of every pair. *)
Theorem cluster_distance_extremes (a b : cluster_t) :
  cluster_ok a -> cluster_ok b ->
  exists dmin dmax,
    cluster_distance MIN a b = Ok dmin /\
    cluster_distance MAX a b = Ok dmax /\
    (exists o1 o2, o1 ∈ objects a /\ o2 ∈ objects b /\
                   dmin = obj_distance o1 o2) /\
    (exists o1 o2, o1 ∈ objects a /\ o2 ∈ objects b /\
                   dmax = obj_distance o1 o2) /\
    forall o1 o2, o1 ∈ objects a -> o2 ∈ objects b ->
      F32.le dmin (obj_distance o1 o2) = true /\
      F32.le (obj_distance o1 o2) dmax = true.
Proof.
  intros (Hwa & Hsa & Hva) (Hwb & Hsb & Hvb).
  pose proof (objects_length a Hwa) as Hla.
  pose proof (objects_length b Hwb) as Hlb.
  rewrite !cluster_distance_linkage
    by (done || (right; left; reflexivity) || (right; right; reflexivity)).
  pose proof (pair_distances_distance _ _ Hva Hvb) as Hds.
  unfold linkage, MIN, MAX.
  change (1 =? 0) with false. change (1 =? 1) with true.
  change (2 =? 0) with false. change (2 =? 1) with false. cbv iota.
  destruct (objects a) as [|a0 la] eqn:Ea; [simpl in Hla; lia|].
  destruct (objects b) as [|b0 lb] eqn:Eb; [simpl in Hlb; lia|].
  assert (forall d, d ∈ pair_distances (a0 :: la) (b0 :: lb) ->
            exists o1 o2, o1 ∈ a0 :: la /\ o2 ∈ b0 :: lb /\
                          d = obj_distance o1 o2) as Helem.
  { intros d. by rewrite pair_distances_elem. }
  assert (forall o1 o2, o1 ∈ a0 :: la -> o2 ∈ b0 :: lb ->
            obj_distance o1 o2 ∈ pair_distances (a0 :: la) (b0 :: lb))
    as Hin.
  { intros o1 o2 H1 H2. apply pair_distances_elem. by exists o1, o2. }
  rewrite pair_distances_cons in *. simpl head. simpl default.
  set (d0 := obj_distance a0 b0) in *.
  assert (F32.is_distance d0 = true) as Hd0 by by inversion Hds.
  match goal with |- context [min_distance d0 ?l] => set (ds := l) in * end.
  destruct (min_distance_spec d0 ds Hd0 Hds) as (_ & Hin1 & _ & Hall1).
  destruct (max_distance_spec d0 ds Hd0 Hds) as (_ & Hin2 & _ & Hall2).
  rewrite Forall_forall in Hall1, Hall2.
  eexists _, _. split; [reflexivity|]. split; [reflexivity|].
  split; [|split].
  - apply Helem. destruct Hin1 as [->|H]; [by left|done].
  - apply Helem. destruct Hin2 as [->|H]; [by left|done].
  - intros o1 o2 H1 H2. split; [apply Hall1|apply Hall2]; by apply Hin.
Qed.

Lemma cluster_distance_extremes_witness :
  exists dmin dmax,
    cluster_distance MIN skew_a skew_b = Ok dmin /\
    cluster_distance MAX skew_a skew_b = Ok dmax /\
    (exists o1 o2, o1 ∈ objects skew_a /\ o2 ∈ objects skew_b /\
                   dmin = obj_distance o1 o2) /\
    (exists o1 o2, o1 ∈ objects skew_a /\ o2 ∈ objects skew_b /\
                   dmax = obj_distance o1 o2) /\
    forall o1 o2, o1 ∈ objects skew_a -> o2 ∈ objects skew_b ->
      F32.le dmin (obj_distance o1 o2) = true /\
      F32.le (obj_distance o1 o2) dmax = true.
Proof.
  apply (cluster_distance_extremes skew_a skew_b);
    repeat constructor; by vm_compute.
Defined.

(** X14.  Between two clusters of one object each, the nearest-neighbour
    and the farthest-neighbour distance are both the distance of the two
    objects, for all coordinates. *)
Theorem cluster_distance_singletons (o1 o2 : obj_t) :
  cluster_distance MIN (singleton o1) (singleton o2)
    = Ok (obj_distance o1 o2) /\
  cluster_distance MAX (singleton o1) (singleton o2)
    = Ok (obj_distance o1 o2).
Proof.
  unfold cluster_distance, scan_objects. simpl.
  by destruct (F32.gt _ _), (F32.lt _ _).
Qed.

(** * Further properties of the array operations *)

Lemma ge_nan (d0 d : float) : F32.is_nan d0 = true -> F32.ge d0 d = false.
Proof. destruct d0; try done. intros _. by destruct d. Qed.

Lemma find_neighbours_unset (m : Z) (carr : list cluster_t) (narr : Z)
  (c1 c2 : option Z) (d0 : float) :
  0 < narr ->
  pair_distance m carr 0 1 = Ok d0 -> F32.is_nan d0 = true ->
  (forall p q, 0 <= p < q /\ q < narr ->
     exists d, pair_distance m carr p q = Ok d) ->
  find_neighbours m carr narr c1 c2 = Ok (c1, c2).
Proof.
  intros Hn H01 Hnan Hall. unfold find_neighbours.
  rewrite assert_true by (by apply Z.ltb_lt). rewrite bind_ok.
  unfold pair_distance in H01.
  destruct (load carr 0) as [a| | |]; try done. simpl in H01 |- *.
  destruct (load carr 1) as [b| | |]; try done. simpl in H01 |- *.
  rewrite H01. simpl.
  destruct (for_loop_inv (fun _ st => st = (d0, c1, c2)) (Z.to_nat narr) 0
    (fun i st =>
       for_loop (Z.to_nat (narr - (i + 1))) (i + 1)
         (fun j '(distance, c1, c2) =>
            a ← load carr i;
            b ← load carr j;
            new_dist ← cluster_distance m a b;
            if F32.ge distance new_dist
            then Ok (new_dist, Some i, Some j)
            else Ok (distance, c1, c2))
         st)
    (d0, c1, c2)) as (st & Hloop & ->); [done| |by rewrite Hloop].
  intros i st Hi ->.
  apply (for_loop_inv (fun _ st => st = (d0, c1, c2))); [done|].
  intros j st Hj ->.
  destruct (Hall i j) as [d Hd]; [lia|]. unfold pair_distance in Hd.
  destruct (load carr i) as [a'| | |]; try done. simpl in Hd |- *.
  destruct (load carr j) as [b'| | |]; try done. simpl in Hd |- *.
  rewrite Hd. simpl. rewrite ge_nan by done. by eexists.
Qed.

(** X15.  When the distance of the clusters 0 and 1 is a NaN, no
    comparison [distance >= new_dist] of [find_neighbours] holds and the
    function returns without storing anything in [*c1] and [*c2]. *)
Theorem find_neighbours_nan (m : Z) (carr : list cluster_t) (narr : Z)
  (c1 c2 : option Z) (d0 : float) :
  0 < narr ->
  pair_distance m carr 0 1 = Ok d0 -> F32.is_nan d0 = true ->
  (forall p q, 0 <= p < q /\ q < narr ->
     exists d, pair_distance m carr p q = Ok d) ->
  find_neighbours m carr narr c1 c2 = Ok (c1, c2).
Proof. apply find_neighbours_unset. Qed.

Lemma find_neighbours_nan_witness :
  find_neighbours AVERAGE nan_clusters 3 None None = Ok (None, None).
Proof.
  apply (find_neighbours_nan AVERAGE nan_clusters 3 None None S754_nan).
  - lia.
  - reflexivity.
  - reflexivity.
  - intros p q Hpq.
    assert ((p = 0 /\ q = 1) \/ (p = 0 /\ q = 2) \/ (p = 1 /\ q = 2))
      as [[-> ->]|[[-> ->]|[-> ->]]] by lia; eexists; by vm_compute.
Defined.



(** X17.  [remove_cluster] with an index that is not below [narr], or
    with [narr <= 0], fails one of its two assertions. *)
Theorem remove_cluster_rejects (al : allocator) (carr : list cluster_t)
  (narr idx : Z) :
  narr <= idx \/ narr <= 0 -> remove_cluster al carr narr idx = Abort.
Proof.
  intros H. unfold remove_cluster, assert.
  destruct (Z.ltb_spec idx narr); [|done].
  destruct (Z.ltb_spec 0 narr); [lia|done].
Qed.

Lemma remove_cluster_rejects_witness :
  remove_cluster plentiful example_clusters 4 4 = Abort.
Proof.
  apply (remove_cluster_rejects plentiful example_clusters 4 4). lia.
Defined.

(** X18.  A negative index passes both assertions of [remove_cluster];
    the first statement of its loop then clears [carr[idx]] before the
    array. *)
Theorem remove_cluster_negative_index (al : allocator)
  (carr : list cluster_t) (narr idx : Z) :
  idx < 0 -> 0 < narr -> remove_cluster al carr narr idx = Undefined.
Proof.
  intros Hidx Hn. unfold remove_cluster.
  rewrite !assert_true by (apply Z.ltb_lt; lia).
  repeat (rewrite bind_ok; cbv beta). simpl.
  destruct (Z.ltb_spec idx narr); [|lia].
  unfold load. destruct (Z.ltb_spec idx 0); [done|lia].
Qed.

Lemma remove_cluster_negative_index_witness :
  remove_cluster plentiful example_clusters 4 (-1) = Undefined.
Proof.
  apply (remove_cluster_negative_index plentiful example_clusters 4 (-1));
    lia.
Defined.

(** X19.  Removing the last cluster of the array needs no allocation and
    changes nothing but the last slot, which becomes the empty cluster. *)
Theorem remove_cluster_last (al : allocator) (carr : list cluster_t)
  (narr : Z) :
  0 < narr <= Z.of_nat (length carr) ->
  remove_cluster al carr narr (narr - 1)
  = Ok (<[Z.to_nat (narr - 1) := mk_cluster 0 0 []]> carr, narr - 1).
Proof.
  intros Hn. unfold remove_cluster.
  rewrite !assert_true by (apply Z.ltb_lt; lia).
  repeat (rewrite bind_ok; cbv beta).
  replace (Z.to_nat (narr - (narr - 1))) with 1%nat by lia. simpl.
  destruct (Z.ltb_spec (narr - 1) narr); [|lia].
  destruct (lookup_lt_is_Some_2 carr (Z.to_nat (narr - 1))) as [c Hc]; [lia|].
  rewrite (load_lookup _ _ c) by (done || lia). simpl.
  rewrite store_in_range by lia. simpl.
  destruct (Z.eqb_spec (narr - 1) (narr - 1)); [|done]. simpl.
  destruct (Z.ltb_spec (narr - 1 + 1) narr); [lia|]. reflexivity.
Qed.

Lemma remove_cluster_last_witness :
  remove_cluster exhausted example_clusters 4 (4 - 1)
  = Ok (<[Z.to_nat (4 - 1) := mk_cluster 0 0 []]> example_clusters, 4 - 1).
Proof.
  apply (remove_cluster_last exhausted example_clusters 4). simpl. lia.
Defined.

(** X20.  Every cluster [remove_cluster] moves is rebuilt from a cleared
    slot, so moving a non-empty cluster needs an allocation: when
    [realloc] fails and a non-empty cluster follows [idx], the function
    stores the first object through the [NULL] buffer of the cleared
    slot. *)
Theorem remove_cluster_no_memory (al : allocator) (carr : list cluster_t)
  (narr idx : Z) (c : cluster_t) :
  (forall n, al n = false) ->
  0 <= idx < narr - 1 -> narr <= Z.of_nat (length carr) ->
  carr !! Z.to_nat (idx + 1) = Some c -> cluster_wf c -> 0 < cl_size c ->
  remove_cluster al carr narr idx = Undefined.
Proof.
  intros Hal Hidx Hlen Hc Hw Hs. unfold remove_cluster.
  rewrite !assert_true by (apply Z.ltb_lt; lia).
  repeat (rewrite bind_ok; cbv beta). simpl.
  destruct (Z.ltb_spec idx narr); [|lia].
  destruct (lookup_lt_is_Some_2 carr (Z.to_nat idx)) as [c0 Hc0]; [lia|].
  rewrite (load_lookup _ idx c0) by (done || lia). simpl.
  rewrite store_in_range by lia. simpl.
  destruct (Z.eqb_spec idx (narr - 1)); [lia|]. simpl.
  rewrite (load_lookup _ idx (clear_cluster c0))
    by (lia || (apply list_lookup_insert_eq; lia)). simpl.
  rewrite (load_lookup _ (idx + 1) c); [|lia|].
  2:{ by rewrite list_lookup_insert_ne by lia. }
  simpl. unfold merge_clusters.
  replace (Z.to_nat (cl_size c)) with (S (Z.to_nat (cl_size c - 1))) by lia.
  simpl.
  destruct (objects_lookup c 0 Hw) as (o & Hld & _); [lia|].
  rewrite Hld. simpl.
  destruct (append_cluster_unchecked al (clear_cluster c0) o
              (clear_cluster_wf c0) eq_refl Hal) as [_ Happ].
  by rewrite Happ.
Qed.

Lemma remove_cluster_no_memory_witness :
  remove_cluster exhausted example_clusters 4 1 = Undefined.
Proof.
  apply (remove_cluster_no_memory exhausted example_clusters 4 1
           (singleton (point 3 3 3))).
  - intros n. reflexivity.
  - lia.
  - simpl. lia.
  - reflexivity.
  - by vm_compute.
  - simpl. lia.
Defined.

(** X21.  [remove_cluster] keeps the length of the array, does not touch
    the slots from [narr] on, and leaves the slot [narr - 1] as the empty
    cluster (size and capacity 0, no buffer). *)
Theorem remove_cluster_frees_last_slot (al : allocator)
  (carr : list cluster_t) (narr idx : Z) :
  total_allocator al -> 0 <= idx < narr ->
  narr <= Z.of_nat (length carr) ->
  Forall cluster_wf (take (Z.to_nat narr) carr) ->
  exists carr',
    remove_cluster al carr narr idx = Ok (carr', narr - 1) /\
    length carr' = length carr /\
    carr' !! Z.to_nat (narr - 1) = Some (mk_cluster 0 0 []) /\
    drop (Z.to_nat narr) carr' = drop (Z.to_nat narr) carr.
Proof.
  intros Hal Hidx Hlen Hwf.
  destruct (remove_cluster_ok al carr narr idx Hal Hidx Hlen)
    as (carr' & Hrem & Hlen' & Hsame & _ & Hlast).
  { intros k c Hk Hc. apply (Forall_lookup_1 _ _ k c Hwf).
    by rewrite lookup_take_lt by lia. }
  exists carr'. split; [done|]. split; [done|]. split; [done|].
  apply list_eq. intros k. rewrite !lookup_drop. apply Hsame. lia.
Qed.

Lemma remove_cluster_frees_last_slot_witness :
  exists carr',
    remove_cluster plentiful example_clusters 3 0 = Ok (carr', 3 - 1) /\
    length carr' = length example_clusters /\
    carr' !! Z.to_nat (3 - 1) = Some (mk_cluster 0 0 []) /\
    drop (Z.to_nat 3) carr' = drop (Z.to_nat 3) example_clusters.
Proof.
  apply (remove_cluster_frees_last_slot plentiful example_clusters 3 0).
  - intros n. reflexivity.
  - lia.
  - simpl. lia.
  - repeat constructor; by vm_compute.
Defined.

(** * Further properties of the clustering loop *)

Lemma loop_body_sorted (m : Z) (al : allocator) (clusters : list cluster_t)
  (size : Z) (c1 c2 : option Z) :
  is_method m -> total_allocator al ->
  collection_ok clusters size -> 2 <= size ->
  Forall nondecreasing (collection clusters size) ->
  exists clusters' i j,
    loop_body m al (clusters, size, c1, c2)
      = Ok (clusters', size - 1, Some i, Some j) /\
    Forall nondecreasing (collection clusters' (size - 1)).
Proof.
  intros Hm Hal Hok Hsize Hsorted. unfold loop_body.
  rewrite find_neighbours_scan by done.
  destruct (scan_nearest (distance_table m clusters) size Hsize
              (fun p q Hpq => distance_table_distance m clusters size p q Hm
                                Hok (proj1 Hpq) (proj2 Hpq)) c1 c2)
    as (i & j & Hscan & (Hij & Hj) & _).
  rewrite Hscan. simpl.
  destruct (collection_ok_lookup clusters size i Hok)
    as (a & Ha & Hoka & Hla & _); [lia|].
  destruct (collection_ok_lookup clusters size j Hok)
    as (b & Hb & Hokb & Hlb & _); [lia|].
  rewrite Hla, Hlb. simpl.
  destruct (Z.eqb_spec i j) as [?|_]; [lia|].
  destruct (merge_clusters_ok al a b Hal (proj1 Hoka) (proj1 Hokb))
    as (a' & Hmerge & Hwa' & Hobja' & Hsza').
  rewrite Hmerge. simpl.
  pose proof Hok as (Hn & Hall & Hmax).
  rewrite store_in_range by lia. simpl.
  destruct (remove_cluster_ok al (<[Z.to_nat i := a']> clusters) size j Hal)
    as (clusters2 & Hrem & Hlen2 & Hsame & Hshift & Hlast).
  { lia. }
  { rewrite length_insert. lia. }
  { intros k c Hk Hc. rewrite list_lookup_insert_ne in Hc by lia.
    assert (cluster_ok c) as (Hw & _); [|done].
    apply (Forall_lookup_1 _ _ k c Hall). by rewrite lookup_take_lt by lia. }
  rewrite Hrem. simpl. exists clusters2, i, j. split; [done|].
  rewrite length_insert in Hlen2.
  apply Forall_lookup_2. intros k l Hl.
  assert (k < Z.to_nat (size - 1))%nat as Hk.
  { apply lookup_lt_Some in Hl. rewrite collection_length in Hl by lia.
    done. }
  rewrite collection_lookup in Hl by done.
  destruct (decide (k < Z.to_nat j)%nat) as [Hlt|Hge].
  - rewrite Hsame in Hl by lia.
    destruct (decide (k = Z.to_nat i)) as [->|Hne].
    + rewrite list_lookup_insert_eq in Hl by lia. injection Hl as <-.
      rewrite Hobja'. apply sorted_nondecreasing, qsort_sorted.
    + rewrite list_lookup_insert_ne in Hl by lia.
      apply (Forall_lookup_1 _ _ k l Hsorted).
      by rewrite collection_lookup by lia.
  - destruct (lookup_lt_is_Some_2 clusters (S k)) as [c0 Hc0]; [lia|].
    destruct (Hshift k c0) as (c' & Hc' & _ & Hobj' & _); [lia| |].
    { by rewrite list_lookup_insert_ne by lia. }
    rewrite Hc' in Hl. injection Hl as <-. rewrite Hobj'.
    apply sorted_nondecreasing, qsort_sorted.
Qed.

Lemma iterate_loop_body_sorted (m : Z) (al : allocator) (k : nat) :
  is_method m -> total_allocator al ->
  forall (clusters : list cluster_t) (size : Z) (c1 c2 : option Z),
  collection_ok clusters size -> 1 <= size - Z.of_nat k ->
  Forall nondecreasing (collection clusters size) ->
  exists clusters' c1' c2',
    iterate k (loop_body m al) (clusters, size, c1, c2)
      = Ok (clusters', size - Z.of_nat k, c1', c2') /\
    Forall nondecreasing (collection clusters' (size - Z.of_nat k)).
Proof.
  intros Hm Hal.
  induction k as [|k IH]; intros clusters size c1 c2 Hok Hk Hs.
  - exists clusters, c1, c2. replace (size - Z.of_nat 0) with size by lia.
    done.
  - destruct (loop_body_sorted m al clusters size c1 c2 Hm Hal Hok)
      as (cl1 & i & j & Hbody & Hs1); [lia|done|].
    destruct (loop_body_ok m al clusters size c1 c2 Hm Hal Hok)
      as (cl1' & i' & j' & Hbody' & Hok1 & _); [lia|].
    rewrite Hbody in Hbody'. injection Hbody' as <- <- <-.
    destruct (IH cl1 (size - 1) (Some i) (Some j) Hok1)
      as (cl2 & c1' & c2' & Hit & Hs2); [lia|done|].
    replace (size - 1 - Z.of_nat k) with (size - Z.of_nat (S k)) in * by lia.
    exists cl2, c1', c2'. by rewrite iterate_S, Hbody, bind_ok.
Qed.

(** X22.  When every cluster of the input is in non-decreasing order of
    identifier (as the one-object clusters of [load_clusters] are), the
    clusters the loop of [main] ends with are non-empty and each in
    non-decreasing order of identifier: merged and moved clusters are
    sorted, the others are untouched. *)
Theorem cluster_loop_sorted (m : Z) (al : allocator)
  (clusters : list cluster_t) (size narr : Z) :
  is_method m -> total_allocator al ->
  collection_ok clusters size -> 1 <= narr <= size ->
  Forall nondecreasing (collection clusters size) ->
  exists clusters' c1 c2,
    cluster_loop m al clusters size narr = Ok (clusters', narr, c1, c2) /\
    Forall nondecreasing (collection clusters' narr) /\
    Forall (fun l => l <> []) (collection clusters' narr).
Proof.
  intros Hm Hal Hok Hn Hs.
  destruct (cluster_loop_iterate_ok m al clusters size narr Hm Hal Hok Hn)
    as (clusters' & c1 & c2 & Hloop & Hok').
  exists clusters', c1, c2. split; [done|]. split.
  - destruct (iterate_loop_body_sorted m al (Z.to_nat (size - narr)) Hm Hal
                clusters size None None Hok)
      as (cl & c1' & c2' & Hit & Hsorted); [lia|done|].
    replace (size - Z.of_nat (Z.to_nat (size - narr))) with narr in * by lia.
    assert (cluster_loop m al clusters size narr = Ok (cl, narr, c1', c2'))
      as Hloop'.
    { unfold cluster_loop.
      apply (while_loop_iterate _ _ (Z.to_nat (size - narr))); [done|lia| |].
      - simpl. rewrite Z.gtb_ltb. apply Z.ltb_ge. lia.
      - intros j [[[cj sj] c1j] c2j] Hj Ht.
        destruct (iterate_loop_body_ok m al j Hm Hal clusters size None None
                    Hok) as (cj' & c1j' & c2j' & Hitj & _); [lia|].
        rewrite Hitj in Ht. injection Ht as <- <- <- <-.
        simpl. rewrite Z.gtb_ltb. apply Z.ltb_lt. lia. }
    rewrite Hloop in Hloop'. by injection Hloop' as <- <- <-.
  - destruct Hok' as (_ & Hall & _). unfold collection. apply Forall_fmap.
    eapply Forall_impl; [exact Hall|]. intros c (Hw & Hsz & _). simpl.
    intros Hnil. pose proof (objects_length c Hw) as Hl.
    rewrite Hnil in Hl. simpl in Hl. lia.
Qed.

Lemma cluster_loop_sorted_witness :
  exists clusters' c1 c2,
    cluster_loop MIN plentiful example_clusters 4 2
      = Ok (clusters', 2, c1, c2) /\
    Forall nondecreasing (collection clusters' 2) /\
    Forall (fun l => l <> []) (collection clusters' 2).
Proof.
  apply (cluster_loop_sorted MIN plentiful example_clusters 4 2).
  - right. left. reflexivity.
  - intros n. reflexivity.
  - split; [simpl; lia|]. split; [|by vm_compute].
    repeat constructor; by vm_compute.
  - lia.
  - repeat constructor.
Defined.

(** X23.  When the distance of the first two clusters is a NaN (an object
    of the first or second cluster has a NaN coordinate), the first run
    of the loop body of [main] uses [c1] and [c2] without their ever
    having been assigned. *)
Theorem loop_body_nan (m : Z) (al : allocator) (clusters : list cluster_t)
  (size : Z) (d0 : float) :
  0 < size ->
  pair_distance m clusters 0 1 = Ok d0 -> F32.is_nan d0 = true ->
  (forall p q, 0 <= p < q /\ q < size ->
     exists d, pair_distance m clusters p q = Ok d) ->
  loop_body m al (clusters, size, None, None) = Undefined.
Proof.
  intros Hn H01 Hnan Hall. unfold loop_body.
  by rewrite (find_neighbours_unset m clusters size None None d0).
Qed.

Lemma loop_body_nan_witness :
  loop_body AVERAGE plentiful (nan_clusters, 3, None, None) = Undefined.
Proof.
  apply (loop_body_nan AVERAGE plentiful nan_clusters 3 S754_nan).
  - lia.
  - reflexivity.
  - reflexivity.
  - intros p q Hpq.
    assert ((p = 0 /\ q = 1) \/ (p = 0 /\ q = 2) \/ (p = 1 /\ q = 2))
      as [[-> ->]|[[-> ->]|[-> ->]]] by lia; eexists; by vm_compute.
Defined.

(** * Further properties of [main] *)

Lemma collection_ok_printable (carr : list cluster_t) (n : Z) :
  collection_ok carr n -> printable carr n.
Proof.
  intros (Hn & Hall & _). split; [done|].
  eapply Forall_impl; [exact Hall|]. by intros c (Hw & _).
Qed.

Lemma print_clusters_printable (carr : list cluster_t) (n : Z) :
  printable carr n -> print_clusters carr n = Ok (collection carr n).
Proof.
  intros (Hn & Hall). unfold print_clusters.
  destruct (for_loop_inv (fun i out => out = collection carr i)
    (Z.to_nat n) 0
    (fun i out => c ← load carr i; line ← print_cluster c; Ok (out ++ [line]))
    []) as (out & Hloop & Hout).
  - done.
  - intros i out Hi ->.
    destruct (lookup_lt_is_Some_2 carr (Z.to_nat i)) as [c Hc]; [lia|].
    assert (cluster_wf c) as Hw.
    { apply (Forall_lookup_1 _ _ (Z.to_nat i) c Hall).
      by rewrite lookup_take_lt by lia. }
    rewrite (load_lookup _ _ c) by (done || lia). simpl.
    rewrite print_cluster_ok by done. simpl.
    eexists. split; [reflexivity|]. unfold collection.
    replace (Z.to_nat (i + 1)) with (S (Z.to_nat i)) by lia.
    by rewrite (take_S_r _ _ c), fmap_app.
  - rewrite Hloop, Hout. f_equal. f_equal. lia.
Qed.

(** [main] after its arguments gave a method and a count. *)
Lemma main_args (env : environment) (argv : list string) (file : string)
  (m narr : Z) :
  argv !! 1%nat = Some file ->
  method_selected argv m -> count_selected env argv narr ->
  main env argv =
  let '(size, clusters) := env_load_clusters env file in
  if size =? 0 then Ok (-1, [])
  else if (narr >? size) && negb (size =? 0) then Ok (-1, [])
  else
    '(clusters, size, _, _) ←
      cluster_loop m (env_alloc env) clusters size narr;
    out ← print_clusters clusters size;
    _ ← for_loop (Z.to_nat size) 0
          (fun i clusters =>
             c ← load clusters i; store clusters i (clear_cluster c))
          clusters;
    Ok (0, out).
Proof.
  intros H1 Hm Hc.
  pose proof (lookup_lt_Some _ _ _ H1) as Hargc.
  unfold main. cbv zeta.
  destruct (Z.ltb_spec (Z.of_nat (length argv)) 2); [lia|].
  assert ((if Z.of_nat (length argv) >? 3
           then argv3 ← load argv 3;
                Ok (if String.eqb argv3 "--max" then 2
                    else if String.eqb argv3 "--min" then 1 else 0)
           else Ok 0) = Ok m) as ->.
  { destruct Hm as [[Hl ->]|(flag & H3 & ->)].
    - destruct (Z.gtb_spec (Z.of_nat (length argv)) 3); [lia|done].
    - pose proof (lookup_lt_Some _ _ _ H3).
      destruct (Z.gtb_spec (Z.of_nat (length argv)) 3); [|lia].
      rewrite (load_lookup argv 3 flag) by (done || lia).
      by rewrite bind_ok. }
  rewrite bind_ok. cbv beta.
  assert ((if Z.of_nat (length argv) >? 2
           then argv2 ← load argv 2;
                (let '(v, fail) := env_strtol env argv2 in
                 if negb (Nat.eqb (String.length fail) 0)
                 then Ok (inr (-1))
                 else if to_int v <=? 0 then Ok (inr (-1))
                      else Ok (inl (to_int v)))
           else Ok (inl 1)) = Ok (inl narr : Z + Z)) as ->.
  { destruct Hc as [[Hl ->]|(count & v & H2 & Hstr & Hpos & ->)].
    - destruct (Z.gtb_spec (Z.of_nat (length argv)) 2); [lia|done].
    - pose proof (lookup_lt_Some _ _ _ H2).
      destruct (Z.gtb_spec (Z.of_nat (length argv)) 2); [|lia].
      rewrite (load_lookup argv 2 count) by (done || lia).
      rewrite bind_ok. cbv beta. rewrite Hstr. cbv beta iota zeta.
      change (negb (Nat.eqb (String.length EmptyString) 0)) with false.
      cbv iota. by destruct (Z.leb_spec (to_int v) 0); [lia|]. }
  rewrite bind_ok. cbv beta iota.
  rewrite (load_lookup argv 1 file) by (done || lia).
  by rewrite bind_ok.
Qed.

(** [main] along the path that runs the clustering loop. *)
Lemma main_run (env : environment) (argv : list string) (file : string)
  (m narr size s' : Z) (clusters clusters' : list cluster_t)
  (c1 c2 : option Z) :
  argv !! 1%nat = Some file ->
  method_selected argv m -> count_selected env argv narr ->
  env_load_clusters env file = (size, clusters) ->
  size <> 0 -> narr <= size ->
  cluster_loop m (env_alloc env) clusters size narr
    = Ok (clusters', s', c1, c2) ->
  printable clusters' s' ->
  main env argv = Ok (0, collection clusters' s').
Proof.
  intros H1 Hm Hc Hload Hsize Hle Hloop Hprint.
  rewrite (main_args env argv file m narr) by done. rewrite Hload.
  destruct (Z.eqb_spec size 0); [done|].
  destruct (Z.gtb_spec narr size); [lia|]. simpl andb. cbv iota.
  rewrite Hloop. repeat (rewrite bind_ok; cbv beta iota zeta).
  rewrite print_clusters_printable by done.
  repeat (rewrite bind_ok; cbv beta iota zeta).
  destruct (clear_clusters_ok clusters' s') as (cl & ->);
    [by destruct Hprint|reflexivity].
Qed.

Lemma method_selected_total (argv : list string) :
  exists m, method_selected argv m.
Proof.
  destruct (argv !! 3%nat) as [flag|] eqn:H3.
  - eexists. right. by exists flag.
  - exists 0. left. split; [|done]. by apply lookup_ge_None.
Qed.

Lemma cluster_loop_done (m : Z) (al : allocator)
  (clusters : list cluster_t) (size narr : Z) :
  size <= narr ->
  cluster_loop m al clusters size narr = Ok (clusters, size, None, None).
Proof.
  intros Hn. unfold cluster_loop. simpl.
  by destruct (Z.gtb_spec size narr); [lia|].
Qed.


(** X24.  When the count argument is the number of clusters of the file,
    [main] merges nothing: it needs no allocation, prints the clusters as
    they were loaded and returns 0, whatever the method argument. *)
Theorem main_count_equals_size (env : environment) (argv : list string)
  (file count : string) (v size : Z) (clusters : list cluster_t) :
  argv !! 1%nat = Some file -> argv !! 2%nat = Some count ->
  env_strtol env count = (v, EmptyString) -> to_int v = size ->
  env_load_clusters env file = (size, clusters) ->
  0 < size -> printable clusters size ->
  main env argv = Ok (0, collection clusters size).
Proof.
  intros H1 H2 Hstr Hv Hload Hsize Hprint.
  destruct (method_selected_total argv) as [m Hm].
  apply (main_run env argv file m size size size clusters clusters None None);
    try (done || lia).
  - right. exists count, v. repeat split; (done || lia).
  - apply cluster_loop_done. lia.
Qed.

Lemma main_count_equals_size_witness :
  main boundary_env boundary_argv = Ok (0, collection example_clusters 4).
Proof.
  apply (main_count_equals_size boundary_env boundary_argv "objects" "4" 4 4
           example_clusters).
  - reflexivity.
  - reflexivity.
  - reflexivity.
  - reflexivity.
  - reflexivity.
  - lia.
  - split; [simpl; lia|]. repeat constructor; by vm_compute.
Defined.

(** X25.  With ["--min"] as the fourth argument [main] clusters with the
    nearest-neighbour method, with ["--max"] with the farthest-neighbour
    method; on a valid file and count it prints the clusters of that
    method and returns 0. *)
Theorem main_selects_method (env : environment) (argv : list string)
  (file count flag : string) (m v size : Z) (clusters : list cluster_t) :
  argv !! 1%nat = Some file -> argv !! 2%nat = Some count ->
  argv !! 3%nat = Some flag ->
  (flag = "--min"%string /\ m = MIN) \/ (flag = "--max"%string /\ m = MAX) ->
  env_strtol env count = (v, EmptyString) -> 1 <= to_int v <= size ->
  env_load_clusters env file = (size, clusters) ->
  collection_ok clusters size ->
  total_allocator (env_alloc env) ->
  exists clusters' c1 c2,
    cluster_loop m (env_alloc env) clusters size (to_int v)
      = Ok (clusters', to_int v, c1, c2) /\
    main env argv = Ok (0, collection clusters' (to_int v)).
Proof.
  intros H1 H2 H3 Hflag Hstr Hv Hload Hok Hal.
  assert (is_method m) as Hm.
  { destruct Hflag as [[_ ->]|[_ ->]]; [right; by left|right; by right]. }
  destruct (cluster_loop_iterate_ok m (env_alloc env) clusters size
              (to_int v) Hm Hal Hok Hv) as (clusters' & c1 & c2 & Hloop & Hok').
  exists clusters', c1, c2. split; [done|].
  apply (main_run env argv file m (to_int v) size (to_int v) clusters
           clusters' c1 c2); try (done || lia).
  - right. exists flag. split; [done|].
    by destruct Hflag as [[-> ->]|[-> ->]].
  - right. exists count, v. repeat split; (done || lia).
  - by apply collection_ok_printable.
Qed.

Lemma main_selects_method_witness :
  exists clusters' c1 c2,
    cluster_loop MIN (env_alloc example_env) example_clusters 4 (to_int 2)
      = Ok (clusters', to_int 2, c1, c2) /\
    main example_env min_argv = Ok (0, collection clusters' (to_int 2)).
Proof.
  apply (main_selects_method example_env min_argv "objects" "2" "--min"
           MIN 2 4 example_clusters).
  - reflexivity.
  - reflexivity.
  - reflexivity.
  - left. split; reflexivity.
  - reflexivity.
  - by vm_compute.
  - reflexivity.
  - split; [simpl; lia|]. split; [|by vm_compute].
    repeat constructor; by vm_compute.
  - intros n. reflexivity.
Defined.



(** X27.  [main] returns -1 and prints no cluster when it gets no file
    argument, or when [strtol] does not read the whole count argument as a
    number, or when that number is zero or negative; it does so before it
    loads the file. *)
Theorem main_rejects_arguments (env : environment) (argv : list string) :
  (length argv < 2)%nat \/
  (exists count v fail,
     argv !! 2%nat = Some count /\ env_strtol env count = (v, fail) /\
     (fail <> EmptyString \/ to_int v <= 0)) ->
  main env argv = Ok (-1, []).
Proof.
  intros [Hlen|(count & v & fail & H2 & Hstr & Hbad)]; unfold main; cbv zeta.
  - by destruct (Z.ltb_spec (Z.of_nat (length argv)) 2); [|lia].
  - pose proof (lookup_lt_Some _ _ _ H2) as Hargc.
    destruct (Z.ltb_spec (Z.of_nat (length argv)) 2); [lia|].
    assert (exists m,
      (if Z.of_nat (length argv) >? 3
       then argv3 ← load argv 3;
            Ok (if String.eqb argv3 "--max" then 2
                else if String.eqb argv3 "--min" then 1 else 0)
       else Ok 0) = Ok m) as [m ->].
    { destruct (Z.gtb_spec (Z.of_nat (length argv)) 3); [|by eexists].
      destruct (lookup_lt_is_Some_2 argv 3) as [flag H3]; [lia|].
      rewrite (load_lookup argv 3 flag) by (done || lia). by eexists. }
    rewrite bind_ok. cbv beta.
    destruct (Z.gtb_spec (Z.of_nat (length argv)) 2); [|lia].
    rewrite (load_lookup argv 2 count) by (done || lia).
    rewrite bind_ok. cbv beta. rewrite Hstr. cbv beta iota zeta.
    destruct fail as [|ch fail].
    + destruct Hbad as [?|Hv]; [done|]. simpl negb. cbv iota.
      by destruct (Z.leb_spec (to_int v) 0); [|lia].
    + reflexivity.
Qed.

Lemma main_rejects_arguments_witness :
  main example_env ["proj3"%string] = Ok (-1, []).
Proof.
  apply (main_rejects_arguments example_env ["proj3"%string]).
  left. simpl. lia.
Defined.

(** X28.  After valid arguments, [main] returns -1 and prints no cluster
    when [load_clusters] reports a failure (0 clusters) or when the count
    is greater than the number of clusters loaded. *)
Theorem main_rejects_input (env : environment) (argv : list string)
  (file : string) (narr size : Z) (clusters : list cluster_t) :
  argv !! 1%nat = Some file -> count_selected env argv narr ->
  env_load_clusters env file = (size, clusters) ->
  size = 0 \/ size < narr ->
  main env argv = Ok (-1, []).
Proof.
  intros H1 Hc Hload Hbad.
  destruct (method_selected_total argv) as [m Hm].
  rewrite (main_args env argv file m narr) by done. rewrite Hload.
  destruct (Z.eqb_spec size 0); [done|].
  destruct Hbad as [?|Hlt]; [done|].
  by destruct (Z.gtb_spec narr size); [|lia].
Qed.

Lemma main_rejects_input_witness :
  main greedy_env example_argv = Ok (-1, []).
Proof.
  apply (main_rejects_input greedy_env example_argv "objects" 5 4
           example_clusters).
  - reflexivity.
  - right. exists "2"%string, 5. repeat split; (reflexivity || lia).
  - reflexivity.
  - right. lia.
Defined.

(** ** The loader *)

Lemma init_append_singleton (al : allocator) (slot : cluster_t) (o : obj_t) :
  total_allocator al ->
  exists c0, init_cluster al slot 1 = Ok c0 /\
             append_cluster al c0 o = Ok (singleton o).
Proof.
  intros Hal. unfold init_cluster. simpl. rewrite Hal. eexists.
  split; [reflexivity|]. unfold append_cluster, resize_cluster. by simpl.
Qed.

Lemma read_lines_accepted (al : allocator) (fresh : cluster_t)
  (count : option Z) (rest : list line) (objs : list obj_t) :
  total_allocator al -> Forall (fun o => out_of_range o = false) objs ->
  forall (i : nat) (slots : list cluster_t),
  (i + length objs <= length slots)%nat ->
  read_lines al fresh
    (((fun o => mk_line CountMismatch (Some o)) <$> objs) ++ rest)
    (Z.of_nat i + 1) count (Some slots)
  = read_lines al fresh rest (Z.of_nat (i + length objs) + 1) count
      (Some (take i slots ++ (singleton <$> objs)
             ++ drop (i + length objs) slots)).
Proof.
  intros Hal Hobjs. induction Hobjs as [|o objs Ho Hobjs IH];
    intros i slots Hlen.
  - simpl. rewrite !Nat.add_0_r. by rewrite take_drop.
  - rewrite fmap_cons. simpl app.
    cbn [read_lines]. destruct (Z.eqb_spec (Z.of_nat i + 1) 0); [lia|].
    simpl in Hlen.
    replace (Z.of_nat i + 1 - 1) with (Z.of_nat i) by lia.
    destruct (lookup_lt_is_Some_2 slots i) as [slot Hslot]; [lia|].
    rewrite bind_ok.
    rewrite (load_lookup slots (Z.of_nat i) slot);
      [|lia|by rewrite Nat2Z.id].
    rewrite bind_ok.
    destruct (init_append_singleton al slot o Hal) as (c0 & Hinit & Happ).
    rewrite Hinit, bind_ok, store_in_range, bind_ok by lia.
    simpl as_object. cbv iota. rewrite Ho, Happ, bind_ok.
    rewrite store_in_range by (rewrite length_insert; lia).
    rewrite bind_ok, Nat2Z.id, list_insert_insert_eq.
    replace (Z.of_nat i + 1 + 1) with (Z.of_nat (S i) + 1) by lia.
    rewrite IH by (rewrite length_insert; lia).
    replace (S i + length objs)%nat with (i + length (o :: objs))%nat
      by (simpl; lia).
    do 2 f_equal.
    rewrite (take_S_r _ _ (singleton o))
      by (apply list_lookup_insert_eq; lia).
    rewrite take_insert_ge, drop_insert_lt by (simpl; lia).
    rewrite <- app_assoc. reflexivity.
Qed.

Lemma load_beyond {A} (a : list A) (i : Z) :
  Z.of_nat (length a) <= i -> load a i = Undefined.
Proof.
  intros Hi. unfold load. destruct (Z.ltb_spec i 0); [done|].
  rewrite lookup_ge_None_2; [done|lia].
Qed.

Lemma read_lines_header (al : allocator) (fresh : cluster_t) (n : Z)
  (lines : list line) (arr : option (list cluster_t)) :
  total_allocator al -> 1 <= n ->
  read_lines al fresh (mk_line (CountRead n) None :: lines) 0 None arr
  = read_lines al fresh lines 1 (Some n)
      (Some (replicate (Z.to_nat n) fresh)).
Proof.
  intros Hal Hn. cbn [read_lines]. simpl.
  destruct (Z.ltb_spec n 1); [lia|]. by rewrite Hal.
Qed.

(** X29.  With memory available, a file whose first line declares [n >= 1]
    objects and whose at most [n] data lines all pass the range check is
    read to the end: the array holds one singleton cluster per data line,
    in file order, followed by the slots no line reached, and the result
    is [n] when there are exactly [n] data lines and 0 otherwise. *)
Theorem load_clusters_counts_lines (al : allocator) (fresh : cluster_t)
  (arr : option (list cluster_t)) (n : Z) (objs : list obj_t) :
  total_allocator al -> 1 <= n ->
  Forall (fun o => out_of_range o = false) objs ->
  Z.of_nat (length objs) <= n ->
  load_clusters al fresh (Some (file_of n objs)) arr
  = Ok (if Z.of_nat (length objs) =? n then n else 0,
        Some ((singleton <$> objs)
              ++ replicate (Z.to_nat n - length objs) fresh)).
Proof.
  intros Hal Hn Hobjs Hlen. unfold load_clusters, file_of.
  rewrite read_lines_header by done.
  rewrite <- (app_nil_r (_ <$> objs)).
  rewrite (read_lines_accepted al fresh (Some n) [] objs Hal Hobjs 0)
    by (rewrite length_replicate; lia).
  cbn [read_lines read_int]. rewrite bind_ok.
  rewrite take_0, drop_replicate. simpl app. rewrite Nat.add_0_l.
  destruct (Z.eqb_spec (Z.of_nat (length objs)) n) as [He|He].
  - destruct (Z.eqb_spec (Z.of_nat (length objs) + 1) (n + 1)); [|lia].
    reflexivity.
  - destruct (Z.eqb_spec (Z.of_nat (length objs) + 1) (n + 1)); [lia|].
    reflexivity.
Qed.

Lemma load_clusters_counts_lines_witness :
  load_clusters plentiful (mk_cluster 0 0 []) (Some (file_of 4 example_points))
    None
  = Ok (4, Some example_clusters).
Proof.
  apply (load_clusters_counts_lines plentiful (mk_cluster 0 0 []) None 4
           example_points).
  - intros n. reflexivity.
  - lia.
  - repeat constructor.
  - simpl. lia.
Defined.

(** X30.  A file with more data lines than its first line declares is not
    rejected: once the declared number of lines is read, the next line
    makes [init_cluster] write past the end of the array, before the
    comparison of the line count with the declared count is reached. *)
Theorem load_clusters_overlong_file (al : allocator) (fresh : cluster_t)
  (arr : option (list cluster_t)) (n : Z) (objs : list obj_t) :
  total_allocator al -> 1 <= n ->
  Forall (fun o => out_of_range o = false) objs ->
  n < Z.of_nat (length objs) ->
  load_clusters al fresh (Some (file_of n objs)) arr = Undefined.
Proof.
  intros Hal Hn Hobjs Hlen. unfold load_clusters, file_of.
  rewrite read_lines_header by done.
  rewrite <- (take_drop (Z.to_nat n) objs), fmap_app.
  assert (Hk : length (take (Z.to_nat n) objs) = Z.to_nat n)
    by (rewrite length_take; lia).
  rewrite (read_lines_accepted al fresh (Some n) _ (take (Z.to_nat n) objs)
             Hal (Forall_take _ _ _ Hobjs) 0)
    by (rewrite length_replicate, Hk; lia).
  rewrite Hk, Nat.add_0_l, take_0, drop_replicate, Nat.sub_diag.
  simpl app. rewrite app_nil_r.
  destruct (drop (Z.to_nat n) objs) as [|o rest] eqn:Hd.
  - apply (f_equal length) in Hd. rewrite length_drop in Hd. simpl in Hd. lia.
  - rewrite fmap_cons. cbn [read_lines].
    destruct (Z.eqb_spec (Z.of_nat (Z.to_nat n) + 1) 0); [lia|].
    rewrite bind_ok, load_beyond; [done|].
    rewrite length_fmap, Hk. lia.
Qed.

Lemma load_clusters_overlong_file_witness :
  load_clusters plentiful (mk_cluster 0 0 []) (Some (file_of 1 example_points))
    None
  = Undefined.
Proof.
  apply (load_clusters_overlong_file plentiful (mk_cluster 0 0 []) None 1
           example_points).
  - intros n. reflexivity.
  - lia.
  - repeat constructor.
  - simpl. lia.
Defined.
